(** * The eBay listing update engine of the sellboy Discord bot

    A shallow embedding of the polling engine of the latest revision of the
    bot (the file that defines [getEbayListing], [getUpdateIntervalMs],
    [updateEbayListing] and [startEbayUpdateLoop]) and the properties of the
    engine that its specification states.

    Conventions of the embedding.
    - JavaScript numbers that hold epoch milliseconds, counters and
      durations are integers ([Z]); the engine only subtracts and compares
      them.
    - A field that may be [null], [undefined] or absent is an [option].
    - [db.ebayListings], a JSON object keyed by channel id, is a
      [gmap string Listing]; [Object.entries] is [map_to_list].  The order in
      which JavaScript enumerates the keys plays no role in any statement
      below: the lemmas about the scan are proved for every list of entries
      with pairwise distinct keys.
    - Everything outside the process (wall clock, eBay, Discord) is an
      abstract state [Ext] with the operations of the class [ExtOps]; an
      awaited call is a function from the state before the call to the
      outcome and the state after it.
    - An [async] function is a computation in the monad [M]: it threads the
      outside world, the data file and the trace of calls, and it either
      returns or throws.  Effects made before a throw are kept.
    - The data file is read and written without failure, and the runs of the
      timer callback do not overlap. *)

From Stdlib Require Import Ascii.
From stdpp Require Import gmap strings list fin_maps pretty.

Open Scope Z_scope.

(** ** Data model *)

(** A record of [db.ebayListings], with the fields written when a tracking
    channel is created. *)
Record Listing := mkListing {
  url : string;
  ownerId : string;
  title : string;
  currentPrice : string;
  bidCount : Z;
  endTime : option Z;
  imageUrl : option string;
  description : string;
  views : Z;
  watchers : Z;
  status : string;
  source : string;
  listingType : string;
  buyItNowPrice : option string;
  lastChecked : option Z;
  createdAt : Z
}.

(** The object returned by [fetchEbayListingViaAPI] and
    [scrapeEbayListing]. *)
Record Snapshot := mkSnapshot {
  s_title : string;
  s_currentPrice : string;
  s_bidCount : Z;
  s_endTime : option Z;
  s_imageUrl : option string;
  s_description : string;
  s_views : Z;
  s_watchers : Z;
  s_status : string;
  s_source : string;
  s_listingType : string;
  s_buyItNowPrice : option string
}.

(** What a strategy extracts from the eBay response before it builds its
    return object: every field but [source], which each strategy writes as a
    literal, and with the ended test as a boolean. *)
Record Extracted := mkExtracted {
  x_title : string;
  x_currentPrice : string;
  x_bidCount : Z;
  x_endTime : option Z;
  x_imageUrl : option string;
  x_description : string;
  x_views : Z;
  x_watchers : Z;
  x_isEnded : bool;
  x_listingType : string;
  x_buyItNowPrice : option string
}.

(** ** Interval policy *)

Definition SECOND : Z := 1000.
Definition MINUTE : Z := 60 * 1000.
Definition HOUR : Z := 60 * 60 * 1000.
Definition DAY : Z := 24 * 60 * 60 * 1000.

(** JavaScript truthiness of a nullable number: [null], [undefined] and [0]
    are falsy. *)
Definition truthy (v : option Z) : bool :=
  match v with
  | Some n => negb (n =? 0)
  | None => false
  end.

(** [v || 0] on a nullable number. *)
Definition or_zero (v : option Z) : Z := default 0 v.

(** [getUpdateIntervalMs(endTime)]; [now] is the value [Date.now()] returns
    inside the function, [None] is the [null] result. *)
Definition getUpdateIntervalMs (now : Z) (endTime : option Z) : option Z :=
  if negb (truthy endTime) then Some (30 * 60 * 1000)
  else
    let timeLeft := or_zero endTime - now in
    if timeLeft <=? 0 then None
    else if timeLeft <? 60 * 60 * 1000 then Some (2 * 60 * 1000)
    else if timeLeft <? 8 * 60 * 60 * 1000 then Some (5 * 60 * 1000)
    else if timeLeft <? 3 * 24 * 60 * 60 * 1000 then Some (15 * 60 * 1000)
    else Some (30 * 60 * 1000).

(** ** Outcomes, effects and the engine monad *)

(** The result of a call that may throw. *)
Inductive Outcome (A : Type) : Type :=
| Ok (a : A)
| Thrown (err : string).
Arguments Ok {A} a.
Arguments Thrown {A} err.

(** The two notification templates of [updateEbayListing]. *)
Inductive Notification : Type :=
| AuctionEnded (finalPrice : string) (totalBids : Z)
| BidUpdate (oldPrice newPrice : string) (oldBids newBids : Z).

(** The calls the engine makes, recorded newest first.  [EvFetch] is the
    call of [getEbayListing] by [updateEbayListing]; [EvFetched] is its
    return, with the fetched object and the clock reading taken after it for
    [lastChecked].  A gateway event is recorded when the awaited call has
    returned without throwing. *)
Inductive Event : Type :=
| EvFetch (channelId u : string)
| EvFetched (channelId : string) (newData : Snapshot) (now : Z)
| EvApi (u : string)
| EvScrape (u : string)
| EvEmbed (channelId : string) (shown : Listing)
| EvRename (channelId newName : string)
| EvSend (channelId : string) (n : Notification)
| EvError (context err : string).

(** The world outside the process.  [channel_fetch] is
    [guild.channels.fetch(id).catch(() => null)] and yields the channel's
    name; [find_embed_message] is [channel.messages.fetch({limit: 10})]
    followed by the search for the bot's embed message; [message_edit] is
    the building of the embed and of the button row followed by
    [embedMsg.edit], and throws when the builder or the edit throws. *)
Class ExtOps (Ext : Type) : Type := {
  Date_now : Ext → Z;
  isEbayApiEnabled : Ext → bool;
  api_request : string → Ext → Outcome Extracted * Ext;
  scrape_request : string → Ext → Outcome Extracted * Ext;
  guild_fetch : Ext → Outcome unit * Ext;
  channel_fetch : string → Ext → option string * Ext;
  find_embed_message : string → Ext → Outcome bool * Ext;
  message_edit : string → Listing → Ext → Outcome unit * Ext;
  channel_setName : string → string → Ext → Outcome unit * Ext;
  channel_send : string → Notification → Ext → Outcome unit * Ext
}.

(** The state the engine runs in: the outside world, the [ebayListings]
    object of the data file ([None] when the file has none) and the calls
    made so far. *)
Record World (Ext : Type) : Type := mkWorld {
  ext : Ext;
  file : option (gmap string Listing);
  trace : list Event
}.
Arguments mkWorld {Ext} ext file trace.
Arguments ext {Ext} w.
Arguments file {Ext} w.
Arguments trace {Ext} w.

(** A computation: from the world before to an outcome and the world after.
    The effects of a computation that throws are kept. *)
Definition M (Ext A : Type) : Type := World Ext → Outcome A * World Ext.

Definition ret {Ext A} (a : A) : M Ext A := fun w => (Ok a, w).

Definition bind {Ext A B} (c : M Ext A) (k : A → M Ext B) : M Ext B :=
  fun w =>
    match c w with
    | (Ok a, w') => k a w'
    | (Thrown e, w') => (Thrown e, w')
    end.

Definition throw {Ext A} (err : string) : M Ext A := fun w => (Thrown err, w).

(** [try { c } catch (err) { h(err) }] *)
Definition try_catch {Ext A} (c : M Ext A) (h : string → M Ext A) : M Ext A :=
  fun w =>
    match c w with
    | (Ok a, w') => (Ok a, w')
    | (Thrown e, w') => h e w'
    end.

Declare Scope engine_scope.
Delimit Scope engine_scope with engine.
Notation "'let!' x ':=' c 'in' k" := (bind c (fun x => k))
  (at level 10, x name, c at level 100, k at level 200) : engine_scope.
Notation "c ';;' k" := (bind c (fun _ => k))
  (at level 100, k at level 200, right associativity) : engine_scope.
Open Scope engine_scope.

(** An awaited call to the outside world. *)
Definition call {Ext A} (op : Ext → Outcome A * Ext) : M Ext A :=
  fun w => let (r, x) := op (ext w) in (r, mkWorld x (file w) (trace w)).

(** An awaited call that cannot throw. *)
Definition call_total {Ext A} (op : Ext → A * Ext) : M Ext A :=
  fun w => let (a, x) := op (ext w) in (Ok a, mkWorld x (file w) (trace w)).

(** A synchronous observation of the outside world. *)
Definition observe {Ext A} (f : Ext → A) : M Ext A :=
  fun w => (Ok (f (ext w)), w).

Definition emit {Ext} (e : Event) : M Ext unit :=
  fun w => (Ok tt, mkWorld (ext w) (file w) (e :: trace w)).

(** [loadDb().ebayListings] *)
Definition loadDb {Ext} : M Ext (option (gmap string Listing)) :=
  fun w => (Ok (file w), w).

(** [saveDb(db)], for the [ebayListings] part of [db]. *)
Definition saveDb {Ext} (listings : gmap string Listing) : M Ext unit :=
  fun w => (Ok tt, mkWorld (ext w) (Some listings) (trace w)).

(** [for (const x of xs) body(x)]: a throw leaves the loop. *)
Fixpoint forEach {Ext A} (body : A → M Ext unit) (xs : list A) : M Ext unit :=
  match xs with
  | [] => ret tt
  | x :: rest => body x ;; forEach body rest
  end.

(** ** Listing data source *)

Definition ended_or_active (isEnded : bool) : string :=
  if isEnded then "ended" else "active".

(** The object a strategy returns, tagged with the strategy's name. *)
Definition build_snapshot (src : string) (x : Extracted) : Snapshot :=
  {| s_title := x_title x;
     s_currentPrice := x_currentPrice x;
     s_bidCount := x_bidCount x;
     s_endTime := x_endTime x;
     s_imageUrl := x_imageUrl x;
     s_description := x_description x;
     s_views := x_views x;
     s_watchers := x_watchers x;
     s_status := ended_or_active (x_isEnded x);
     s_source := src;
     s_listingType := x_listingType x;
     s_buyItNowPrice := x_buyItNowPrice x |}.

Section Engine.
Context {Ext : Type} `{ExtOps Ext}.

(** [fetchEbayListingViaAPI(url)]: the request and its parsing are the
    outside world's; the function returns an object with [source: "api"]. *)
Definition fetchEbayListingViaAPI (u : string) : M Ext Snapshot :=
  emit (EvApi u) ;;
  let! item := call (api_request u) in
  ret (build_snapshot "api" item).

(** [scrapeEbayListing(url)]: returns an object with [source: "scrape"]. *)
Definition scrapeEbayListing (u : string) : M Ext Snapshot :=
  emit (EvScrape u) ;;
  let! page := call (scrape_request u) in
  ret (build_snapshot "scrape" page).

(** [getEbayListing(url)] *)
Definition getEbayListing (u : string) : M Ext Snapshot :=
  let! enabled := observe isEbayApiEnabled in
  let! viaApi :=
    (if enabled : bool then
       try_catch
         (let! listing := fetchEbayListingViaAPI u in ret (Some listing))
         (fun _ => ret None)
     else ret None) in
  match viaApi with
  | Some listing => ret listing
  | None => scrapeEbayListing u
  end.

(** ** Update engine *)

(** The assignments of [updateEbayListing] to the tracked record: ten fields
    are taken from the fetched object, [lastChecked] is the clock reading
    taken after the fetch, the other fields are not assigned. *)
Definition merge (listing : Listing) (newData : Snapshot) (now : Z) : Listing :=
  {| url := url listing;
     ownerId := ownerId listing;
     title := s_title newData;
     currentPrice := s_currentPrice newData;
     bidCount := s_bidCount newData;
     endTime := s_endTime newData;
     imageUrl := s_imageUrl newData;
     description := s_description newData;
     views := s_views newData;
     watchers := s_watchers newData;
     status := s_status newData;
     source := s_source newData;
     listingType := listingType listing;
     buyItNowPrice := buyItNowPrice listing;
     lastChecked := Some now;
     createdAt := createdAt listing |}.

(** [listing.status = s] *)
Definition set_status (s : string) (listing : Listing) : Listing :=
  {| url := url listing;
     ownerId := ownerId listing;
     title := title listing;
     currentPrice := currentPrice listing;
     bidCount := bidCount listing;
     endTime := endTime listing;
     imageUrl := imageUrl listing;
     description := description listing;
     views := views listing;
     watchers := watchers listing;
     status := s;
     source := source listing;
     listingType := listingType listing;
     buyItNowPrice := buyItNowPrice listing;
     lastChecked := lastChecked listing;
     createdAt := createdAt listing |}.

Fixpoint strip_prefix (p s : string) : option string :=
  match p, s with
  | EmptyString, _ => Some s
  | String a p', String b s' =>
      if Ascii.eqb a b then strip_prefix p' s' else None
  | String _ _, EmptyString => None
  end.

(** [name.replace(/^🔨/, "✅")] *)
Definition swapEndedEmoji (name : string) : string :=
  match strip_prefix "🔨" name with
  | Some rest => "✅" +:+ rest
  | None => name
  end.

Definition priceChanged (oldPrice : string) (newData : Snapshot) : bool :=
  negb (String.eqb oldPrice (s_currentPrice newData)).

Definition bidCountChanged (oldBidCount : Z) (newData : Snapshot) : bool :=
  negb (oldBidCount =? s_bidCount newData).

Definition justEnded (oldStatus : string) (newData : Snapshot) : bool :=
  String.eqb oldStatus "active" && String.eqb (s_status newData) "ended".

(** The text of the notification, chosen as in [updateEbayListing]; [None]
    is the empty string the variable starts with. *)
Definition notification_of (oldPrice : string) (oldBidCount : Z)
    (oldStatus : string) (newData : Snapshot) : option Notification :=
  if justEnded oldStatus newData then
    Some (AuctionEnded (s_currentPrice newData) (s_bidCount newData))
  else if priceChanged oldPrice newData || bidCountChanged oldBidCount newData then
    Some (BidUpdate oldPrice (s_currentPrice newData)
                    oldBidCount (s_bidCount newData))
  else None.

(** The part of [updateEbayListing] after the record is saved: from "Check
    if anything changed worth notifying" to the end of the [try] block.
    [listing] is the record after the assignments. *)
Definition announce (channelId : string) (listing : Listing)
    (oldPrice : string) (oldBidCount : Z) (oldStatus : string)
    (newData : Snapshot) : M Ext unit :=
  if priceChanged oldPrice newData || bidCountChanged oldBidCount newData
     || justEnded oldStatus newData
  then
    call guild_fetch ;;
    let! channel := call_total (channel_fetch channelId) in
    match channel with
    | None => ret tt
    | Some name =>
        let! embedMsg := call (find_embed_message channelId) in
        (if embedMsg : bool then
           call (message_edit channelId listing) ;;
           emit (EvEmbed channelId listing)
         else ret tt) ;;
        (if justEnded oldStatus newData then
           try_catch
             (let newName := swapEndedEmoji name in
              if negb (String.eqb newName name) then
                call (channel_setName channelId newName) ;;
                emit (EvRename channelId newName)
              else ret tt)
             (fun _ => ret tt)
         else ret tt) ;;
        match notification_of oldPrice oldBidCount oldStatus newData with
        | Some notification =>
            call (channel_send channelId notification) ;;
            emit (EvSend channelId notification)
        | None => ret tt
        end
    end
  else ret tt.

(** [updateEbayListing(channelId, listing)].  The function assigns to the
    fields of the caller's object; the callers do not read the object after
    the call, so the embedding returns only the boolean. *)
Definition updateEbayListing (channelId : string) (listing : Listing)
    : M Ext bool :=
  try_catch
    (emit (EvFetch channelId (url listing)) ;;
     let! newData := getEbayListing (url listing) in
     let oldPrice := currentPrice listing in
     let oldBidCount := bidCount listing in
     let oldStatus := status listing in
     let! now := observe Date_now in
     emit (EvFetched channelId newData now) ;;
     let listing' := merge listing newData now in
     let! db := loadDb in
     match db with
     | None => throw "TypeError: cannot set properties of undefined"
     | Some listings => saveDb (<[channelId := listing']> listings)
     end ;;
     announce channelId listing' oldPrice oldBidCount oldStatus newData ;;
     ret true)
    (fun err =>
       emit (EvError ("Failed to update eBay listing " +:+ channelId) err) ;;
       ret false).

(** [["closed", "ended", "sold", "shipped"].includes(s)] *)
Definition skipped_status (s : string) : bool :=
  existsb (String.eqb s) ["closed"; "ended"; "sold"; "shipped"].

(** The body of the loop of [startEbayUpdateLoop] for one entry; [now] is
    the clock reading taken before the loop. *)
Definition processListing (now : Z) (entry : string * Listing) : M Ext unit :=
  let (channelId, listing) := entry in
  try_catch
    (if skipped_status (status listing) then ret tt
     else
       let! clock := observe Date_now in
       match getUpdateIntervalMs clock (endTime listing) with
       | None =>
           updateEbayListing channelId (set_status "ended" listing) ;;
           ret tt
       | Some interval =>
           let timeSinceLastCheck := now - or_zero (lastChecked listing) in
           if interval <=? timeSinceLastCheck then
             updateEbayListing channelId listing ;; ret tt
           else ret tt
       end)
    (fun err =>
       emit (EvError ("Error processing listing " +:+ channelId) err)).

(** The scan of the entries read at the start of a tick. *)
Definition scan (now : Z) (entries : list (string * Listing)) : M Ext unit :=
  forEach (processListing now) entries.

(** One run of the timer callback of [startEbayUpdateLoop]. *)
Definition tick : M Ext unit :=
  try_catch
    (let! db := loadDb in
     match db with
     | None => ret tt
     | Some listings =>
         let! now := observe Date_now in
         scan now (map_to_list listings)
     end)
    (fun err => emit (EvError "Error in eBay update loop" err)).

(** The world after a computation. *)
Definition after {A} (c : M Ext A) (w : World Ext) : World Ext := snd (c w).

(** The outcome of a computation. *)
Definition outcome {A} (c : M Ext A) (w : World Ext) : Outcome A := fst (c w).

(** The worlds reachable by the timer alone: between two ticks the outside
    world changes arbitrarily, the data file does not. *)
Inductive ticked : World Ext → World Ext → Prop :=
| ticked_refl w : ticked w w
| ticked_step w w1 x :
    ticked w w1 →
    ticked w (after tick (mkWorld x (file w1) (trace w1))).

End Engine.

(** The world in which [updateEbayListing(channelId, listing)] calls
    [getEbayListing]. *)
Definition fetch_start {Ext} (channelId : string) (listing : Listing)
    (w : World Ext) : World Ext :=
  mkWorld (ext w) (file w) (EvFetch channelId (url listing) :: trace w).

(** ** Reading the store and traces *)

(** [loadDb().ebayListings?.[channelId]] *)
Definition record_of {Ext} (w : World Ext) (channelId : string)
    : option Listing :=
  match file w with
  | Some listings => listings !! channelId
  | None => None
  end.


Definition is_fetch_of (channelId : string) (e : Event) : bool :=
  match e with
  | EvFetch c _ => String.eqb c channelId
  | _ => false
  end.


Definition is_embed_of (channelId : string) (e : Event) : bool :=
  match e with
  | EvEmbed c _ => String.eqb c channelId
  | _ => false
  end.

Definition is_api (e : Event) : bool :=
  match e with
  | EvApi _ => true
  | _ => false
  end.

Definition is_scrape (e : Event) : bool :=
  match e with
  | EvScrape _ => true
  | _ => false
  end.

(** The number of events of a kind in a trace. *)
Fixpoint count (p : Event → bool) (tr : list Event) : nat :=
  match tr with
  | [] => 0%nat
  | e :: rest => ((if p e then 1 else 0) + count p rest)%nat
  end.

(** The fetches of a channel's listing that returned, newest first. *)
Fixpoint fetched_in (channelId : string) (tr : list Event)
    : list (Snapshot * Z) :=
  match tr with
  | [] => []
  | EvFetched c newData now :: rest =>
      if String.eqb c channelId then (newData, now) :: fetched_in channelId rest
      else fetched_in channelId rest
  | _ :: rest => fetched_in channelId rest
  end.

(** The notifications posted to a channel, newest first. *)
Fixpoint sent_to (channelId : string) (tr : list Event) : list Notification :=
  match tr with
  | [] => []
  | EvSend c n :: rest =>
      if String.eqb c channelId then n :: sent_to channelId rest
      else sent_to channelId rest
  | _ :: rest => sent_to channelId rest
  end.

(** The records shown by the refreshes of a channel's embed, newest first. *)
Fixpoint embeds_of (channelId : string) (tr : list Event) : list Listing :=
  match tr with
  | [] => []
  | EvEmbed c shown :: rest =>
      if String.eqb c channelId then shown :: embeds_of channelId rest
      else embeds_of channelId rest
  | _ :: rest => embeds_of channelId rest
  end.

(** The decision of the loop body to call [updateEbayListing] for a record,
    read off [processListing]: [now] is the reading taken before the loop,
    [clock] the one taken by [getUpdateIntervalMs]. *)
Definition fetches (now clock : Z) (listing : Listing) : bool :=
  negb (skipped_status (status listing)) &&
  match getUpdateIntervalMs clock (endTime listing) with
  | None => true
  | Some interval => interval <=? now - or_zero (lastChecked listing)
  end.

(** What changed between the stored values and the fetched object. *)
Definition changed (oldPrice : string) (oldBidCount : Z) (oldStatus : string)
    (newData : Snapshot) : bool :=
  priceChanged oldPrice newData || bidCountChanged oldBidCount newData
  || justEnded oldStatus newData.

(** A gateway that answers every call: the guild and the channel resolve,
    the message list is returned, edits and sends go through.  Renaming may
    still fail. *)
Definition gateway_reliable {Ext} `{ExtOps Ext} : Prop :=
  (∀ x, fst (guild_fetch x) = Ok tt) ∧
  (∀ c x, is_Some (fst (channel_fetch c x))) ∧
  (∀ c x, ∃ b, fst (find_embed_message c x) = Ok b) ∧
  (∀ c l x, fst (message_edit c l x) = Ok tt) ∧
  (∀ c n x, fst (channel_send c n x) = Ok tt).

(** What the gateway part of [updateEbayListing] may add to the trace, for
    the record [shown] just saved under [channelId]: nothing when nothing
    changed; at most one notification, the one [notification_of] chooses;
    at most one refresh of the embed, showing [shown]; and both of them when
    something changed and the gateway answers. *)
Definition announced {Ext} `{ExtOps Ext} (channelId : string) (shown : Listing)
    (oldPrice : string) (oldBidCount : Z) (oldStatus : string)
    (newData : Snapshot) (evs : list Event) : Prop :=
  (changed oldPrice oldBidCount oldStatus newData = false → evs = []) ∧
  (sent_to channelId evs = [] ∨
   ∃ n, notification_of oldPrice oldBidCount oldStatus newData = Some n ∧
        sent_to channelId evs = [n]) ∧
  (embeds_of channelId evs = [] ∨ embeds_of channelId evs = [shown]) ∧
  (gateway_reliable → changed oldPrice oldBidCount oldStatus newData = true →
     ∃ n, sent_to channelId evs = [n]) ∧
  (gateway_reliable → (∀ c x, fst (find_embed_message c x) = Ok true) →
     changed oldPrice oldBidCount oldStatus newData = true →
     embeds_of channelId evs = [shown]).

(** An event other than the call and the return of a fetch. *)
Definition quiet (e : Event) : bool :=
  match e with
  | EvFetch _ _ | EvFetched _ _ _ => false
  | _ => true
  end.

(** [w'] differs from [w] by calls to the outside world that are not
    fetches: the data file is the same and the trace grew by quiet events. *)
Definition quiet_step {Ext} (w w' : World Ext) : Prop :=
  file w' = file w ∧
  ∃ evs, trace w' = evs ++ trace w ∧ forallb quiet evs = true.

Ltac unfold_engine :=
  unfold after, outcome, bind, try_catch, call, call_total, observe, emit,
    loadDb, saveDb, throw, ret in *.

(** Reads the new events off a trace of the form [e1 :: ... :: tr]. *)
Ltac give_events :=
  lazymatch goal with
  | |- ∃ evs, ?t = evs ++ ?tr ∧ _ =>
      let rec go t :=
        lazymatch t with
        | tr => constr:(@nil Event)
        | ?e :: ?t' => let r := go t' in constr:(e :: r)
        end in
      let evs := go t in exists evs
  end.

(** Closes a case of the gateway part in which a call that a reliable
    gateway answers has thrown or found nothing. *)
Ltac unreliable :=
  match goal with
  | Hg : ∀ x, fst (guild_fetch x) = Ok tt, E : guild_fetch ?x = _ |- _ =>
      specialize (Hg x); rewrite E in Hg; discriminate Hg
  | Hc : ∀ c x, is_Some (fst (channel_fetch c x)), E : channel_fetch ?c ?x = _ |- _ =>
      specialize (Hc c x); rewrite E in Hc; by destruct Hc
  | Hf : ∀ c x, ∃ b, fst (find_embed_message c x) = Ok b,
    E : find_embed_message ?c ?x = _ |- _ =>
      destruct (Hf c x) as [? Hb]; rewrite E in Hb; discriminate Hb
  | Hf : ∀ c x, fst (find_embed_message c x) = Ok true,
    E : find_embed_message ?c ?x = _ |- _ =>
      specialize (Hf c x); rewrite E in Hf; discriminate Hf
  | He : ∀ c l x, fst (message_edit c l x) = Ok tt, E : message_edit ?c ?l ?x = _ |- _ =>
      specialize (He c l x); rewrite E in He; discriminate He
  | Hs : ∀ c n x, fst (channel_send c n x) = Ok tt, E : channel_send ?c ?n ?x = _ |- _ =>
      specialize (Hs c n x); rewrite E in Hs; discriminate Hs
  end.

(** Closes one path through the gateway part of [updateEbayListing]. *)
Ltac leaf :=
  simpl; give_events; simpl; rewrite ?String.eqb_refl;
  repeat match goal with |- _ ∧ _ => split end;
  try reflexivity; try discriminate;
  try (by left); try (by right); try (right; eexists; split; reflexivity);
  try (intros (Hg & Hc & Hf & He & Hs); intros; first [by eexists | reflexivity | unreliable]).

(** ** A scripted outside world

    A concrete outside world for evaluating the engine: the state is the
    wall clock, every awaited call takes [sc_latency] milliseconds, and the
    answers of eBay and Discord are fixed by the script. *)
Record Script : Type := mkScript {
  sc_apiEnabled : bool;
  sc_api : string → Outcome Extracted;
  sc_scrape : string → Outcome Extracted;
  sc_latency : Z;
  sc_channel : string → option string;
  sc_hasEmbed : bool
}.

Definition scripted (s : Script) : ExtOps Z :=
  {| Date_now := fun t => t;
     isEbayApiEnabled := fun _ => sc_apiEnabled s;
     api_request := fun u t => (sc_api s u, t + sc_latency s);
     scrape_request := fun u t => (sc_scrape s u, t + sc_latency s);
     guild_fetch := fun t => (Ok tt, t + sc_latency s);
     channel_fetch := fun c t => (sc_channel s c, t + sc_latency s);
     find_embed_message := fun _ t => (Ok (sc_hasEmbed s), t + sc_latency s);
     message_edit := fun _ _ t => (Ok tt, t + sc_latency s);
     channel_setName := fun _ _ t => (Ok tt, t + sc_latency s);
     channel_send := fun _ _ t => (Ok tt, t + sc_latency s) |}.

(** 2023-11-14T22:13:20Z *)
Definition T0 : Z := 1700000000000.

(** An auction tracked in channel ["chanA"] whose deadline passed a minute
    before [T0] and which was last checked two minutes before it. *)
Definition watch : Listing :=
  {| url := "https://www.ebay.com/itm/123456789012";
     ownerId := "owner";
     title := "Pocket watch";
     currentPrice := "$10.00";
     bidCount := 2;
     endTime := Some (T0 - 60000);
     imageUrl := None;
     description := "";
     views := 0;
     watchers := 0;
     status := "active";
     source := "scrape";
     listingType := "auction";
     buyItNowPrice := None;
     lastChecked := Some (T0 - 120000);
     createdAt := T0 - 86400000 |}.

(** The page of the same auction as the scraper reads it when it finds none
    of its three "ended" markers: same deadline, same price and bids. *)
Definition watch_page : Extracted :=
  {| x_title := "Pocket watch";
     x_currentPrice := "$10.00";
     x_bidCount := 2;
     x_endTime := Some (T0 - 60000);
     x_imageUrl := None;
     x_description := "";
     x_views := 0;
     x_watchers := 0;
     x_isEnded := false;
     x_listingType := "auction";
     x_buyItNowPrice := None |}.

(** An auction tracked in channel ["chanB"] that ends half an hour after
    [T0] and was last checked three minutes before [T0]. *)
Definition lamp : Listing :=
  {| url := "https://www.ebay.com/itm/222222222222";
     ownerId := "owner";
     title := "Desk lamp";
     currentPrice := "$25.00";
     bidCount := 4;
     endTime := Some (T0 + 1800000);
     imageUrl := None;
     description := "";
     views := 10;
     watchers := 1;
     status := "active";
     source := "scrape";
     listingType := "auction";
     buyItNowPrice := None;
     lastChecked := Some (T0 - 180000);
     createdAt := T0 - 86400000 |}.


(** The lamp's page with nothing new on it. *)
Definition lamp_page : Extracted :=
  {| x_title := "Desk lamp";
     x_currentPrice := "$25.00";
     x_bidCount := 4;
     x_endTime := Some (T0 + 1800000);
     x_imageUrl := None;
     x_description := "";
     x_views := 10;
     x_watchers := 1;
     x_isEnded := false;
     x_listingType := "auction";
     x_buyItNowPrice := None |}.

(** The lamp's page after a bid, with a Buy It Now option added. *)
Definition lamp_page_bid : Extracted :=
  {| x_title := "Desk lamp";
     x_currentPrice := "$27.50";
     x_bidCount := 5;
     x_endTime := Some (T0 + 1800000);
     x_imageUrl := None;
     x_description := "";
     x_views := 12;
     x_watchers := 2;
     x_isEnded := false;
     x_listingType := "auction_with_bin";
     x_buyItNowPrice := Some "$60.00" |}.

(** eBay with both pages unchanged. *)
Definition site_unchanged (u : string) : Outcome Extracted :=
  if String.eqb u (url watch) then Ok watch_page
  else if String.eqb u (url lamp) then Ok lamp_page
  else Thrown "Failed to fetch eBay listing: 404".

(** eBay with a new bid on the lamp and the watch's page unreachable. *)
Definition site_moved (u : string) : Outcome Extracted :=
  if String.eqb u (url lamp) then Ok lamp_page_bid
  else Thrown "Failed to fetch eBay listing: 503".

Definition quiet_script : Script :=
  {| sc_apiEnabled := false;
     sc_api := fun _ => Thrown "eBay API credentials not configured";
     sc_scrape := site_unchanged;
     sc_latency := 150;
     sc_channel := fun _ => Some "🔨desk-lamp";
     sc_hasEmbed := true |}.

Definition bidding_script : Script :=
  {| sc_apiEnabled := false;
     sc_api := fun _ => Thrown "eBay API credentials not configured";
     sc_scrape := site_moved;
     sc_latency := 150;
     sc_channel := fun _ => Some "🔨desk-lamp";
     sc_hasEmbed := true |}.


(** The API strategy enabled and failing. *)
Definition api_script : Script :=
  {| sc_apiEnabled := true;
     sc_api := fun _ => Thrown "eBay API error: 500 - Internal error";
     sc_scrape := site_unchanged;
     sc_latency := 150;
     sc_channel := fun _ => Some "🔨desk-lamp";
     sc_hasEmbed := true |}.

(** The watch's page once eBay shows the auction as ended, with the final
    price and bid count equal to the stored ones. *)
Definition watch_page_ended : Extracted :=
  {| x_title := "Pocket watch";
     x_currentPrice := "$10.00";
     x_bidCount := 2;
     x_endTime := Some (T0 - 60000);
     x_imageUrl := None;
     x_description := "";
     x_views := 0;
     x_watchers := 0;
     x_isEnded := true;
     x_listingType := "auction";
     x_buyItNowPrice := None |}.

Definition ended_script : Script :=
  {| sc_apiEnabled := false;
     sc_api := fun _ => Thrown "eBay API credentials not configured";
     sc_scrape := fun _ => Ok watch_page_ended;
     sc_latency := 150;
     sc_channel := fun _ => Some "🔨pocket-watch";
     sc_hasEmbed := true |}.

(** The world at [T0] with the given tracked listings and an empty trace. *)
Definition world0 (listings : gmap string Listing) : World Z :=
  mkWorld T0 (Some listings) [].

(** One tick of the engine in a scripted world. *)
Definition run_tick (s : Script) (w : World Z) : World Z :=
  after (@tick Z (scripted s)) w.

(** ** Reading traces, continued *)

(** An event of the data source. *)
Definition is_source (e : Event) : bool :=
  match e with
  | EvApi _ | EvScrape _ => true
  | _ => false
  end.

(** The renames of a channel, newest first. *)
Fixpoint renames_of (channelId : string) (tr : list Event) : list string :=
  match tr with
  | [] => []
  | EvRename c newName :: rest =>
      if String.eqb c channelId then newName :: renames_of channelId rest
      else renames_of channelId rest
  | _ :: rest => renames_of channelId rest
  end.

(** An event of the update of the record [listing] of channel [channelId]:
    a fetch of that channel, a request for the record's URL, a gateway call
    on that channel, or a logged error. *)
Definition concerns (channelId : string) (listing : Listing) (e : Event)
    : Prop :=
  match e with
  | EvFetch c u => c = channelId ∧ u = url listing
  | EvFetched c _ _ => c = channelId
  | EvApi u | EvScrape u => u = url listing
  | EvEmbed c _ | EvRename c _ | EvSend c _ => c = channelId
  | EvError _ _ => True
  end.

(** ** The listing embed and its buttons *)

(** [String(n)] and [`${n}`] for an integer. *)
Definition String_of_number (n : Z) : string := pretty n.

(** The day, hour and minute counts [formatTimeLeft] computes from the
    remaining milliseconds; [%] is the remainder that takes the sign of the
    dividend, [Math.floor(a / b)] rounds down. *)
Definition timeLeft_days (diff : Z) : Z := diff / (1000 * 60 * 60 * 24).
Definition timeLeft_hours (diff : Z) : Z :=
  Z.rem diff (1000 * 60 * 60 * 24) / (1000 * 60 * 60).
Definition timeLeft_minutes (diff : Z) : Z :=
  Z.rem diff (1000 * 60 * 60) / (1000 * 60).

(** The [parts] array of [formatTimeLeft]. *)
Definition timeLeft_parts (days hours minutes : Z) : list string :=
  let parts := [] in
  let parts := if 0 <? days
               then parts ++ [String_of_number days +:+ "d"] else parts in
  let parts := if 0 <? hours
               then parts ++ [String_of_number hours +:+ "h"] else parts in
  let parts := if (0 <? minutes) || (length parts =? 0)%nat
               then parts ++ [String_of_number minutes +:+ "m"] else parts in
  parts.

(** [formatTimeLeft(endTime)]; [now] is the value of [Date.now()]. *)
Definition formatTimeLeft (now : Z) (endTime : option Z) : string :=
  if negb (truthy endTime) then "Unknown"
  else
    let diff := or_zero endTime - now in
    if diff <=? 0 then "Ended"
    else
      String.concat " "
        (timeLeft_parts (timeLeft_days diff) (timeLeft_hours diff)
           (timeLeft_minutes diff)).

(** A decimal digit. *)
Definition is_digit (c : Ascii.ascii) : Prop :=
  c ∈ (["0"; "1"; "2"; "3"; "4"; "5"; "6"; "7"; "8"; "9"]%char : list Ascii.ascii).

Definition starts_with_digit (s : string) : Prop :=
  match s with
  | String c _ => is_digit c
  | EmptyString => False
  end.


(** The buttons of the action row of a tracked listing. *)
Inductive Button : Type :=
| RefreshButton
| OpenOnEbayButton (link : string)
| MarkSoldButton
| CloseTrackingButton
| MarkShippedButton.

(** [buildEbayListingButtons(listing)]: the components of the row, in
    order. *)
Definition buildEbayListingButtons (listing : Listing) : list Button :=
  let buttons := [RefreshButton; OpenOnEbayButton (url listing)] in
  let isBuyItNow := String.eqb (listingType listing) "buy_it_now" in
  if String.eqb (status listing) "active" then
    let buttons := if isBuyItNow then buttons ++ [MarkSoldButton] else buttons in
    buttons ++ [CloseTrackingButton]
  else if String.eqb (status listing) "ended"
          || String.eqb (status listing) "sold" then
    buttons ++ [MarkShippedButton]
  else buttons.

(** What [buildEbayListingEmbed] sets on the [EmbedBuilder]; every field is
    inline. *)
Record Embed : Type := mkEmbed {
  em_title : string;
  em_color : Z;
  em_description : option string;
  em_fields : list (string * string);
  em_footer : string;
  em_image : option string
}.

(** The validation done by the setters of [EmbedBuilder].  It is code of
    discord.js and not of the repository, so it is a parameter: for each
    setter, whether it accepts its argument or throws, and with which
    error. *)
Class EmbedBuilderOps : Type := {
  setTitle_check : string → Outcome unit;
  setColor_check : Z → Outcome unit;
  setDescription_check : string → Outcome unit;
  addFields_check : list (string * string) → Outcome unit;
  setFooter_check : string → Outcome unit;
  setImage_check : string → Outcome unit
}.

(** A call of a setter followed by the rest of the function: when the
    setter throws, the function throws. *)
Definition checked {A} (call : Outcome unit) (rest : Outcome A) : Outcome A :=
  match call with
  | Ok _ => rest
  | Thrown err => Thrown err
  end.

(** [s || "N/A"] on a string. *)
Definition or_NA (s : string) : string :=
  if String.eqb s "" then "N/A" else s.

(** Truthiness of a nullable string: [null] and the empty string are
    falsy. *)
Definition truthy_string (s : option string) : bool :=
  match s with
  | Some v => negb (String.eqb v "")
  | None => false
  end.

Definition newline : string := String (ascii_of_nat 10) "".

(** The colour [buildEbayListingEmbed] chooses. *)
Definition embed_color (listing : Listing) : Z :=
  if String.eqb (status listing) "ended"
     || String.eqb (status listing) "sold"
     || String.eqb (status listing) "shipped"
  then 0x808080 else 0x0064d2.

(** The variable [description] after the Buy It Now line is put before it. *)
Definition embed_description (listing : Listing) : string :=
  let description := description listing in
  if String.eqb (listingType listing) "auction_with_bin"
     && truthy_string (buyItNowPrice listing)
  then "**Buy It Now: " +:+ default "" (buyItNowPrice listing) +:+ "**"
       +:+ newline +:+ newline +:+ description
  else description.

(** The argument of [addFields]; [now] is the reading of [Date.now()] in
    [formatTimeLeft]. *)
Definition embed_fields (now : Z) (listing : Listing)
    : list (string * string) :=
  if String.eqb (listingType listing) "buy_it_now" then
    [("Price", or_NA (currentPrice listing));
     ("Views", String_of_number (views listing));
     ("Watchers", String_of_number (watchers listing))]
  else
    [("Current Bid", or_NA (currentPrice listing));
     ("Bids", String_of_number (bidCount listing));
     ("Time Left", formatTimeLeft now (endTime listing));
     ("Views", String_of_number (views listing));
     ("Watchers", String_of_number (watchers listing))].

(** The text of the footer; [toLocaleString] renders
    [new Date(listing.lastChecked).toLocaleString()]. *)
Definition embed_footer (toLocaleString : option Z → string)
    (listing : Listing) : string :=
  "Last updated: " +:+ toLocaleString (lastChecked listing) +:+ " | via "
  +:+ (if String.eqb (source listing) "api" then "eBay API" else "web scrape").

(** The tag put before the title by the second call of [setTitle], made for
    the statuses ended, sold and shipped. *)
Definition status_tag (listing : Listing) : option string :=
  if String.eqb (status listing) "ended" then Some "[ENDED] "
  else if String.eqb (status listing) "sold" then Some "[SOLD] "
  else if String.eqb (status listing) "shipped" then Some "[SHIPPED] "
  else None.

(** [buildEbayListingEmbed(listing)]: the calls of the setters in the order
    of the source, and the embed they leave when none of them throws. *)
Definition buildEbayListingEmbed `{EmbedBuilderOps}
    (toLocaleString : option Z → string) (now : Z) (listing : Listing)
    : Outcome Embed :=
  let description := embed_description listing in
  checked (setTitle_check (title listing))
  (checked (setColor_check (embed_color listing))
  (checked (if String.eqb description "" then Ok tt
            else setDescription_check description)
  (checked (addFields_check (embed_fields now listing))
  (checked (setFooter_check (embed_footer toLocaleString listing))
  (checked (if truthy_string (imageUrl listing)
            then setImage_check (default "" (imageUrl listing))
            else Ok tt)
  (checked (match status_tag listing with
            | Some tag => setTitle_check (tag +:+ title listing)
            | None => Ok tt
            end)
  (Ok {| em_title :=
           match status_tag listing with
           | Some tag => tag +:+ title listing
           | None => title listing
           end;
         em_color := embed_color listing;
         em_description :=
           if String.eqb description "" then None else Some description;
         em_fields := embed_fields now listing;
         em_footer := embed_footer toLocaleString listing;
         em_image :=
           if truthy_string (imageUrl listing) then imageUrl listing
           else None |}))))))).

(** ** The buttons of a tracking channel *)

(** What the handlers read from the interaction; [i_isStaff] is the result
    of [memberIsStaff(interaction)]. *)
Record Interaction : Type := mkInteraction {
  i_channelId : string;
  i_userId : string;
  i_isStaff : bool
}.

(** The answers the handlers give to the interaction. *)
Inductive Reply : Type :=
| NotTrackingChannel
| NotAllowed
| ItemSold
| ItemShipped
| TrackingClosed
| ListingRefreshed
| RefreshFailed (err : string).

(** The calls on the interaction and on its channel and message;
    [interaction_message_edit] is the building of the embed and of the button
    row followed by [interaction.message.edit], and throws when the builder
    or the edit throws. *)
Class InteractionOps (Ext : Type) : Type := {
  interaction_deferReply : Ext → Outcome unit * Ext;
  interaction_reply : Reply → Ext → Outcome unit * Ext;
  interaction_editReply : Reply → Ext → Outcome unit * Ext;
  interaction_message_edit : Listing → Ext → Outcome unit * Ext;
  interaction_channel_name : Ext → string;
  interaction_channel_setName : string → Ext → Outcome unit * Ext;
  interaction_channel_setParent : string → Ext → Outcome unit * Ext;
  interaction_channel_send :
    string → string → Z → Z → Ext → Outcome unit * Ext
}.

(** [name.replace(/^old/, new)] for a literal [old]. *)
Definition replace_leading (old new name : string) : string :=
  match strip_prefix old name with
  | Some rest => new +:+ rest
  | None => name
  end.

Section Handlers.
Context {Ext : Type} `{ExtOps Ext} `{InteractionOps Ext}.

(** [config.ebayArchivedCategoryId], and [s.slice(0, 90)] on JavaScript
    strings. *)
Variable ebayArchivedCategoryId : string.
Variable slice90 : string → string.

(** [db.ebayListings?.[interaction.channelId]] for the [db] loaded at the
    top of the interaction handler. *)
Definition tracked (db : option (gmap string Listing)) (i : Interaction)
    : option Listing :=
  match db with
  | Some listings => listings !! i_channelId i
  | None => None
  end.

(** [!isOwner && !isStaff] *)
Definition not_allowed (i : Interaction) (ebayListing : Listing) : bool :=
  negb (String.eqb (i_userId i) (ownerId ebayListing)) && negb (i_isStaff i).

(** [saveDb(db)] after an assignment to a field of [ebayListing], an object
    of the [db] loaded at the top of the handler. *)
Definition save_listing (db : option (gmap string Listing)) (i : Interaction)
    (ebayListing : Listing) : M Ext unit :=
  match db with
  | Some listings => saveDb (<[i_channelId i := ebayListing]> listings)
  | None => ret tt
  end.

(** The "eBay Mark Sold button" branch of the interaction handler. *)
Definition ebay_sold (i : Interaction) : M Ext Reply :=
  let! db := loadDb in
  match tracked db i with
  | None => call (interaction_reply NotTrackingChannel) ;; ret NotTrackingChannel
  | Some ebayListing =>
      if not_allowed i ebayListing then
        call (interaction_reply NotAllowed) ;; ret NotAllowed
      else
        let ebayListing := set_status "sold" ebayListing in
        save_listing db i ebayListing ;;
        try_catch
          (let! name := observe interaction_channel_name in
           let newName := replace_leading "💰" "✅" name in
           call (interaction_channel_setName newName) ;;
           emit (EvRename (i_channelId i) newName))
          (fun _ => ret tt) ;;
        call (interaction_message_edit ebayListing) ;;
        emit (EvEmbed (i_channelId i) ebayListing) ;;
        call (interaction_reply ItemSold) ;;
        ret ItemSold
  end.

(** The "eBay Mark Shipped button" branch. *)
Definition ebay_shipped (i : Interaction) : M Ext Reply :=
  let! db := loadDb in
  match tracked db i with
  | None => call (interaction_reply NotTrackingChannel) ;; ret NotTrackingChannel
  | Some ebayListing =>
      if not_allowed i ebayListing then
        call (interaction_reply NotAllowed) ;; ret NotAllowed
      else
        let ebayListing := set_status "shipped" ebayListing in
        save_listing db i ebayListing ;;
        try_catch
          (if negb (String.eqb ebayArchivedCategoryId "") then
             call (interaction_channel_setParent ebayArchivedCategoryId)
           else ret tt)
          (fun err =>
             emit (EvError "Failed to move channel to archived category" err)) ;;
        call (interaction_message_edit ebayListing) ;;
        emit (EvEmbed (i_channelId i) ebayListing) ;;
        call (interaction_reply ItemShipped) ;;
        ret ItemShipped
  end.

(** The "eBay Close Tracking button" branch. *)
Definition ebay_close (i : Interaction) : M Ext Reply :=
  let! db := loadDb in
  match tracked db i with
  | None => call (interaction_reply NotTrackingChannel) ;; ret NotTrackingChannel
  | Some ebayListing =>
      if not_allowed i ebayListing then
        call (interaction_reply NotAllowed) ;; ret NotAllowed
      else
        let ebayListing := set_status "closed" ebayListing in
        save_listing db i ebayListing ;;
        try_catch
          (let! name := observe interaction_channel_name in
           let newName := slice90 ("closed-" +:+ name) in
           call (interaction_channel_setName newName) ;;
           emit (EvRename (i_channelId i) newName))
          (fun _ => ret tt) ;;
        call (interaction_reply TrackingClosed) ;;
        ret TrackingClosed
  end.

(** The "eBay Refresh button" branch. *)
Definition ebay_refresh (i : Interaction) : M Ext Reply :=
  let! db := loadDb in
  match tracked db i with
  | None => call (interaction_reply NotTrackingChannel) ;; ret NotTrackingChannel
  | Some ebayListing =>
      call interaction_deferReply ;;
      try_catch
        (let! newData := getEbayListing (url ebayListing) in
         let oldPrice := currentPrice ebayListing in
         let oldBidCount := bidCount ebayListing in
         let! now := observe Date_now in
         let ebayListing := merge ebayListing newData now in
         save_listing db i ebayListing ;;
         call (interaction_message_edit ebayListing) ;;
         emit (EvEmbed (i_channelId i) ebayListing) ;;
         (if priceChanged oldPrice newData || bidCountChanged oldBidCount newData
          then call (interaction_channel_send oldPrice (s_currentPrice newData)
                       oldBidCount (s_bidCount newData))
          else ret tt) ;;
         call (interaction_editReply ListingRefreshed) ;;
         ret ListingRefreshed)
        (fun err =>
           emit (EvError "Failed to refresh eBay listing" err) ;;
           call (interaction_editReply (RefreshFailed err)) ;;
           ret (RefreshFailed err))
  end.

(** The three buttons that set a status by hand. *)
Inductive Transition : Type := MarkSold | MarkShipped | CloseTracking.

Definition handler_of (t : Transition) : Interaction → M Ext Reply :=
  match t with
  | MarkSold => ebay_sold
  | MarkShipped => ebay_shipped
  | CloseTracking => ebay_close
  end.



End Handlers.

(** ** Photo tickets: collecting image uploads *)

(** A record of [db.listings]. *)
Record Ticket : Type := mkTicket {
  t_ownerId : string;
  t_itemName : string;
  t_itemDesc : string;
  t_images : list string;
  t_status : string;
  t_createdAt : Z
}.

(** What the handler reads from an attachment of a message. *)
Record Attachment : Type := mkAttachment {
  att_contentType : option string;
  att_url : string
}.

(** ASCII lower case of a character, the case folding of a regular
    expression with the [i] flag on a pattern of ASCII letters. *)
Definition ascii_lower (c : Ascii.ascii) : Ascii.ascii :=
  let n := nat_of_ascii c in
  if (65 <=? n)%nat && (n <=? 90)%nat then ascii_of_nat (n + 32) else c.

Fixpoint lower_ascii_letters (s : string) : string :=
  match s with
  | EmptyString => EmptyString
  | String c rest => String (ascii_lower c) (lower_ascii_letters rest)
  end.

(** [s] ends with [suffix], ASCII letters compared without case; [suffix]
    is in lower case. *)
Definition ends_with_ci (suffix s : string) : bool :=
  match strip_prefix (String.rev suffix)
          (String.rev (lower_ascii_letters s)) with
  | Some _ => true
  | None => false
  end.

(** [s.startsWith(p)] *)
Definition startsWith (p s : string) : bool :=
  match strip_prefix p s with
  | Some _ => true
  | None => false
  end.

(** [isImageAttachment(att)]; the regular expression is
    [/\.(png|jpe?g|webp|gif)$/i]. *)
Definition isImageAttachment (att : Attachment) : bool :=
  match att_contentType att with
  | Some contentType =>
      if negb (String.eqb contentType "") && startsWith "image/" contentType
      then true
      else existsb (λ ext, ends_with_ci ext (att_url att))
             [".png"; ".jpg"; ".jpeg"; ".webp"; ".gif"]
  | None =>
      existsb (λ ext, ends_with_ci ext (att_url att))
        [".png"; ".jpg"; ".jpeg"; ".webp"; ".gif"]
  end.

(** [set.add(x)] on a [Set], kept as the list of its elements in insertion
    order. *)
Definition Set_add (set : list string) (x : string) : list string :=
  if bool_decide (x ∈ set) then set else set ++ [x].

(** [new Set(xs)] *)
Definition new_Set (xs : list string) : list string := foldl Set_add [] xs.

(** The part of the [MessageCreate] handler between [loadDb()] and
    [saveDb(db)]: the ticket to save, or [None] when the handler returns
    without saving. *)
Definition collect_images (authorIsBot : bool) (ticket : option Ticket)
    (attachments : list Attachment) : option Ticket :=
  if authorIsBot then None
  else
    match ticket with
    | None => None
    | Some ticket =>
        if negb (existsb (String.eqb (t_status ticket)) ["open"; "images_done"])
        then None
        else
          let newImages :=
            map att_url (List.filter isImageAttachment attachments) in
          if (length newImages =? 0)%nat then None
          else
            let existing := new_Set (t_images ticket) in
            let existing := foldl Set_add existing newImages in
            Some {| t_ownerId := t_ownerId ticket;
                    t_itemName := t_itemName ticket;
                    t_itemDesc := t_itemDesc ticket;
                    t_images := existing;
                    t_status := t_status ticket;
                    t_createdAt := t_createdAt ticket |}
    end.

(** The handler on the store: [db.listings] after the message. *)
Definition MessageCreate (listings : gmap string Ticket) (channelId : string)
    (authorIsBot : bool) (attachments : list Attachment)
    : gmap string Ticket :=
  match collect_images authorIsBot (listings !! channelId) attachments with
  | Some ticket => <[channelId := ticket]> listings
  | None => listings
  end.

(** ** eBay API credentials and the access token *)

(** [config.ebayAppId || ""], [config.ebayDevId || ""] and
    [config.ebayCertId || ""]. *)
Record Config : Type := mkConfig {
  configEbayAppId : string;
  configEbayDevId : string;
  configEbayCertId : string
}.

(** [db.ebayCredentials]; a missing field is the empty string. *)
Record StoredCredentials : Type := mkStored {
  db_appId : string;
  db_devId : string;
  db_certId : string;
  db_configuredBy : string;
  db_configuredAt : Z
}.

Inductive CredentialSource : Type := FromDatabase | FromConfig.

(** The object returned by [getEbayCredentials]. *)
Record Credentials : Type := mkCredentials {
  cr_appId : string;
  cr_devId : string;
  cr_certId : string;
  cr_source : CredentialSource
}.

(** The credentials in the data file and the module variables
    [ebayAccessToken] and [ebayTokenExpiry]. *)
Record ApiState : Type := mkApiState {
  st_credentials : option StoredCredentials;
  st_token : option string;
  st_expiry : Z
}.

Definition nonempty (s : string) : bool := negb (String.eqb s "").

(** [getEbayCredentials()], for the data file holding [stored]. *)
Definition getEbayCredentials (cfg : Config)
    (stored : option StoredCredentials) : option Credentials :=
  match stored with
  | Some c =>
      if nonempty (db_appId c) && nonempty (db_certId c) then
        Some {| cr_appId := db_appId c; cr_devId := db_devId c;
                cr_certId := db_certId c; cr_source := FromDatabase |}
      else if nonempty (configEbayAppId cfg) && nonempty (configEbayCertId cfg) then
        Some {| cr_appId := configEbayAppId cfg;
                cr_devId := configEbayDevId cfg;
                cr_certId := configEbayCertId cfg; cr_source := FromConfig |}
      else None
  | None =>
      if nonempty (configEbayAppId cfg) && nonempty (configEbayCertId cfg) then
        Some {| cr_appId := configEbayAppId cfg;
                cr_devId := configEbayDevId cfg;
                cr_certId := configEbayCertId cfg; cr_source := FromConfig |}
      else None
  end.

(** The answer of the OAuth endpoint to a request made with an app id and a
    cert id: the access token and [expires_in], or the error thrown when the
    request fails or the response is not [ok]. *)
Definition OAuth : Type := string → string → Outcome (string * Z).

(** The result of [getEbayAccessToken]: its outcome, the state after it and
    the credentials sent to the OAuth endpoint when a request was made. *)
Record TokenResult : Type := mkTokenResult {
  tr_outcome : Outcome string;
  tr_state : ApiState;
  tr_request : option Credentials
}.

(** [getEbayAccessToken()]; [now] is the clock reading of the validity test
    and [now'] the one taken after the response arrived. *)
Definition getEbayAccessToken (cfg : Config) (oauth : OAuth) (now now' : Z)
    (st : ApiState) : TokenResult :=
  if truthy_string (st_token st) && (now <? st_expiry st - 300000) then
    mkTokenResult (Ok (default "" (st_token st))) st None
  else
    match getEbayCredentials cfg (st_credentials st) with
    | None => mkTokenResult (Thrown "eBay API credentials not configured") st None
    | Some creds =>
        match oauth (cr_appId creds) (cr_certId creds) with
        | Thrown err => mkTokenResult (Thrown err) st (Some creds)
        | Ok (access_token, expires_in) =>
            mkTokenResult (Ok access_token)
              {| st_credentials := st_credentials st;
                 st_token := Some access_token;
                 st_expiry := now' + expires_in * 1000 |}
              (Some creds)
        end
    end.

(** The "eBay Setup Modal submit" branch after [deferReply], on the state:
    [appId], [devId] and [certId] are the trimmed inputs, [user] is
    [interaction.user.id], [now0] the reading of [configuredAt]; [None] when
    the inputs are refused. *)
Definition ebay_setup_modal (cfg : Config) (oauth : OAuth)
    (appId devId certId user : string) (now0 now now' : Z) (st : ApiState)
    : option TokenResult :=
  if negb (nonempty appId) || negb (nonempty certId) then None
  else
    let st := {| st_credentials :=
                   Some {| db_appId := appId; db_devId := devId;
                           db_certId := certId; db_configuredBy := user;
                           db_configuredAt := now0 |};
                 st_token := None;
                 st_expiry := 0 |} in
    Some (getEbayAccessToken cfg oauth now now' st).

(** The [/ebay-clear] command after [deferReply], on the state. *)
Definition ebay_clear (cfg : Config) (st : ApiState) : ApiState :=
  match getEbayCredentials cfg (st_credentials st) with
  | None => st
  | Some creds =>
      match cr_source creds with
      | FromConfig => st
      | FromDatabase =>
          {| st_credentials := None; st_token := None; st_expiry := 0 |}
      end
  end.

(** ** Channel names *)

(** A character of the class [[a-z0-9]]. *)
Definition is_slug_char (c : Ascii.ascii) : bool :=
  let n := nat_of_ascii c in
  ((97 <=? n)%nat && (n <=? 122)%nat) || ((48 <=? n)%nat && (n <=? 57)%nat).

Definition dash : Ascii.ascii := "-"%char.

Definition is_dash (c : Ascii.ascii) : bool := Ascii.eqb c dash.

(** [.replace(/[^a-z0-9]+/g, "-")]: every maximal run of characters outside
    the class becomes one dash; [in_run] tells that the previous character
    was outside the class. *)
Fixpoint dash_runs (in_run : bool) (s : list Ascii.ascii) : list Ascii.ascii :=
  match s with
  | [] => []
  | c :: rest =>
      if is_slug_char c then c :: dash_runs false rest
      else if in_run then dash_runs true rest
      else dash :: dash_runs true rest
  end.

(** [.replace(/^-+/, "")] *)
Fixpoint drop_leading_dashes (s : list Ascii.ascii) : list Ascii.ascii :=
  match s with
  | [] => []
  | c :: rest => if is_dash c then drop_leading_dashes rest else s
  end.

(** [.replace(/-+$/, "")] *)
Fixpoint drop_trailing_dashes (s : list Ascii.ascii) : list Ascii.ascii :=
  match s with
  | [] => []
  | c :: rest =>
      match drop_trailing_dashes rest with
      | [] => if is_dash c then [] else [c]
      | kept => c :: kept
      end
  end.

(** [slugify(str, maxLen)] on the characters of [str.toLowerCase()]. *)
Definition slugify_chars (lowered : list Ascii.ascii) (maxLen : nat)
    : list Ascii.ascii :=
  take maxLen (drop_trailing_dashes (drop_leading_dashes (dash_runs false lowered))).

(** [slugify(str, maxLen = 30)]; [toLowerCase] is the method of JavaScript
    strings. *)
Definition slugify (toLowerCase : string → string) (str : string)
    (maxLen : nat) : string :=
  String.string_of_list_ascii
    (slugify_chars (String.list_ascii_of_string (toLowerCase str)) maxLen).

(** A character a slug may hold. *)
Definition slug_or_dash (c : Ascii.ascii) : bool := is_slug_char c || is_dash c.

(** No two dashes in a row. *)
Fixpoint no_double_dash (s : list Ascii.ascii) : Prop :=
  match s with
  | c :: rest =>
      (c = dash → head rest ≠ Some dash) ∧ no_double_dash rest
  | [] => True
  end.

(** The shape the steps of [slugify] keep. *)
Definition slug_shaped (s : list Ascii.ascii) : Prop :=
  Forall (λ c, slug_or_dash c = true) s ∧ no_double_dash s.

(** [`${emoji}${slug}-${counter}`] *)
Definition numbered (emoji slug : string) (counter : Z) : string :=
  emoji +:+ slug +:+ "-" +:+ String_of_number counter.

(** The [while] loop of [createUniqueChannelName], started at [counter]: the
    first counter whose name is free.  [fuel] bounds the number of
    iterations; the loop of the source has no bound. *)
Fixpoint next_free_counter (toLowerCase : string → string) (fuel : nat)
    (existingNames : gset string) (emoji slug : string) (counter : Z)
    : option Z :=
  if bool_decide (toLowerCase (numbered emoji slug counter) ∈ existingNames)
  then
    match fuel with
    | O => None
    | S fuel' =>
        next_free_counter toLowerCase fuel' existingNames emoji slug
          (counter + 1)
    end
  else Some counter.

(** [createUniqueChannelName(guild, categoryId, emoji, baseName)] from the
    point where [simplified] (the first three words of [baseName], joined by
    dashes) and [existingNames] (the lower-cased names of the channels of
    the category) are known. *)
Definition createUniqueChannelName (toLowerCase : string → string)
    (fuel : nat) (existingNames : gset string) (emoji simplified : string)
    : option string :=
  let slug := slugify toLowerCase simplified 25 in
  let finalName := emoji +:+ slug in
  if negb (bool_decide (toLowerCase finalName ∈ existingNames)) then
    Some finalName
  else
    match next_free_counter toLowerCase fuel existingNames emoji slug 2 with
    | Some counter => Some (numbered emoji slug counter)
    | None => None
    end.

(** ** Crash reports *)

(** [s.endsWith(suffix)] *)
Fixpoint endsWith (suffix s : string) : bool :=
  if String.eqb s suffix then true
  else
    match s with
    | EmptyString => false
    | String _ rest => endsWith suffix rest
    end.

Definition is_digit_char (c : Ascii.ascii) : bool :=
  let n := nat_of_ascii c in (48 <=? n)%nat && (n <=? 57)%nat.

(** The longest run of digits at the start of [s], and what follows it. *)
Fixpoint span_digits (s : string) : string * string :=
  match s with
  | EmptyString => (EmptyString, EmptyString)
  | String c rest =>
      if is_digit_char c then
        let (ds, after_ds) := span_digits rest in (String c ds, after_ds)
      else (EmptyString, s)
  end.

(** A match of [/crash_report_(\d+)\.txt/] that starts at the first
    character of [s]: its group. *)
Definition report_match_here (s : string) : option string :=
  match strip_prefix "crash_report_" s with
  | Some rest =>
      let (ds, after_ds) := span_digits rest in
      if negb (String.eqb ds "") && startsWith ".txt" after_ds then Some ds
      else None
  | None => None
  end.

(** [f.match(/crash_report_(\d+)\.txt/)]: the group of the leftmost
    match. *)
Fixpoint report_match (f : string) : option string :=
  match report_match_here f with
  | Some ds => Some ds
  | None =>
      match f with
      | EmptyString => None
      | String _ rest => report_match rest
      end
  end.

(** [Number.MAX_SAFE_INTEGER]: up to it the numbers of JavaScript are the
    integers, with exact arithmetic and a decimal [String(n)]. *)
Definition MAX_SAFE_INTEGER : Z := 2 ^ 53 - 1.

(** [parseInt(ds, 10)] on a string of digits, as an integer: the value
    JavaScript computes when it is at most [MAX_SAFE_INTEGER]. *)
Fixpoint parseInt_digits (acc : Z) (ds : string) : Z :=
  match ds with
  | EmptyString => acc
  | String c rest =>
      parseInt_digits (acc * 10 + (Z.of_nat (nat_of_ascii c) - 48)) rest
  end.

(** The index [writeCrashReport] reads off a file name. *)
Definition report_index (f : string) : Z :=
  match report_match f with
  | Some ds => parseInt_digits 0 ds
  | None => 0
  end.

(** [indices.length > 0 ? Math.max(...indices) + 1 : 1] *)
Definition next_index (indices : list Z) : Z :=
  match indices with
  | [] => 1
  | i :: rest => foldl Z.max i rest + 1
  end.

(** The index [writeCrashReport] gives the next report, for the listing
    [dir] of the crash report directory. *)
Definition nextIndex (dir : list string) : Z :=
  let existingFiles :=
    List.filter (λ f, startsWith "crash_report_" f && endsWith ".txt" f) dir in
  next_index (map report_index existingFiles).

(** [`crash_report_${nextIndex}.txt`] *)
Definition report_file (index : Z) : string :=
  "crash_report_" +:+ String_of_number index +:+ ".txt".

(** Every character of [s] is a digit. *)
Fixpoint all_digits (s : string) : bool :=
  match s with
  | EmptyString => true
  | String c rest => is_digit_char c && all_digits rest
  end.

(** ** The placement of a tracking channel

    The [/ebay-organize] command reads the first character of a channel name
    with [charAt(0)] and cuts it off with [slice(1)].  Both count UTF-16 code
    units, so channel names are modelled here as lists of code units. *)

Definition JsString := list N.

(** The emoji literals of the source as UTF-16: U+2705 is one code unit,
    U+1F4B0 and U+1F528 are surrogate pairs. *)
Definition check_mark : JsString := [0x2705%N].
Definition money_bag : JsString := [0xD83D%N; 0xDCB0%N].
Definition hammer : JsString := [0xD83D%N; 0xDD28%N].

(** [s.charAt(0)] and [s.slice(1)] *)
Definition charAt0 (s : JsString) : JsString := take 1 s.
Definition slice1 (s : JsString) : JsString := drop 1 s.

(** What the organizer reads of a channel. *)
Record Channel := mkChannel {
  ch_parentId : option string;
  ch_name : JsString
}.

(** What the organizer does for one channel: the requests [setParent] and
    [setName], each made or not, the counters [results.moved] and
    [results.emojiUpdated] it increments, and the error that ends the
    iteration in its [catch], which increments [results.errors]. *)
Record Organized := mkOrganized {
  rq_setParent : option string;
  rq_setName : option JsString;
  org_moved : bool;
  org_emojiUpdated : bool;
  org_error : option string
}.

Section Placement.

(** [config.ebayArchivedCategoryId], [config.ebayBuyItNowCategoryId] and
    [config.ebayAuctionsCategoryId] *)
Variable ebayArchivedCategoryId : string.
Variable ebayBuyItNowCategoryId : string.
Variable ebayAuctionsCategoryId : string.

(** The category and emoji the "eBay Modal submit" branch creates a
    channel with. *)
Definition creation_placement (listingType : string) : string * JsString :=
  if String.eqb listingType "buy_it_now"
  then (ebayBuyItNowCategoryId, money_bag)
  else (ebayAuctionsCategoryId, hammer).

(** [correctCategoryId] and [correctEmoji] of [/ebay-organize]. *)
Definition correct_placement (listing : Listing) : string * JsString :=
  if String.eqb (status listing) "shipped"
  then (ebayArchivedCategoryId, check_mark)
  else if String.eqb (status listing) "ended"
          || String.eqb (status listing) "sold"
  then (if String.eqb (listingType listing) "buy_it_now"
        then ebayBuyItNowCategoryId
        else ebayAuctionsCategoryId, check_mark)
  else if String.eqb (listingType listing) "buy_it_now"
  then (ebayBuyItNowCategoryId, money_bag)
  else (ebayAuctionsCategoryId, hammer).

(** The body of the organizer's loop from "Determine correct category" to
    "Update emoji if needed", for a listing whose type is known.
    [setParent] and [setName] are the answers of the gateway to the two
    awaited calls; the calls are made one after the other inside one [try],
    so a move that throws ends the iteration before the rename. *)
Definition organize_channel (setParent : string → Outcome unit)
    (setName : JsString → Outcome unit) (listing : Listing)
    (channel : Channel) : Organized :=
  let '(correctCategoryId, correctEmoji) := correct_placement listing in
  let needsMove :=
    negb (bool_decide (ch_parentId channel = Some correctCategoryId)) in
  let currentEmoji := charAt0 (ch_name channel) in
  let needsEmojiUpdate := negb (bool_decide (currentEmoji = correctEmoji)) in
  let newName := correctEmoji ++ slice1 (ch_name channel) in
  match (if needsMove then setParent correctCategoryId else Ok tt) with
  | Thrown err =>
      {| rq_setParent := Some correctCategoryId;
         rq_setName := None;
         org_moved := false;
         org_emojiUpdated := false;
         org_error := Some err |}
  | Ok _ =>
      match (if needsEmojiUpdate then setName newName else Ok tt) with
      | Thrown err =>
          {| rq_setParent := if needsMove then Some correctCategoryId else None;
             rq_setName := Some newName;
             org_moved := needsMove;
             org_emojiUpdated := false;
             org_error := Some err |}
      | Ok _ =>
          {| rq_setParent := if needsMove then Some correctCategoryId else None;
             rq_setName := if needsEmojiUpdate then Some newName else None;
             org_moved := needsMove;
             org_emojiUpdated := needsEmojiUpdate;
             org_error := None |}
      end
  end.

End Placement.

(** ** Proof automation for the further properties *)

(** Case analysis on the scrutinees of the goal, innermost first. *)
Ltac crunch :=
  repeat (simpl; match goal with
    | |- context [match ?c with _ => _ end] =>
        lazymatch c with
        | context [match _ with _ => _ end] => fail
        | _ => destruct c
        end
    end).

(** ** The loop body at a record's turn *)

(** A request to eBay for the page at [u], by either strategy. *)
Definition is_request_of (u : string) (e : Event) : bool :=
  match e with
  | EvApi v | EvScrape v => String.eqb v u
  | _ => false
  end.

(** The call returned without throwing. *)
Definition is_Ok {A} (o : Outcome A) : bool :=
  match o with
  | Ok _ => true
  | Thrown _ => false
  end.

Section Turn.
Context {Ext : Type} `{ExtOps Ext}.

(** The world after the body of the loop of [startEbayUpdateLoop] has run
    for one entry. *)
Definition turn (now : Z) (w : World Ext) (entry : string * Listing)
    : World Ext :=
  after (processListing now entry) w.

(** The object the loop body hands to [updateEbayListing]: the entry, with
    ["ended"] assigned to its status when the policy returned [null]. *)
Definition handed (clock : Z) (listing : Listing) : Listing :=
  match getUpdateIntervalMs clock (endTime listing) with
  | None => set_status "ended" listing
  | Some _ => listing
  end.




End Turn.

(** [l'] is the record [old] after the assignments of [updateEbayListing]
    for the fetched object [s] and the clock reading [t], the assignment to
    [status] left aside: nine fields and [source] are those of [s],
    [lastChecked] is [t], and the fields that are not assigned are those of
    [old]. *)
Definition refreshed_from (old : Listing) (s : Snapshot) (t : Z)
    (l' : Listing) : Prop :=
  title l' = s_title s ∧
  currentPrice l' = s_currentPrice s ∧
  bidCount l' = s_bidCount s ∧
  endTime l' = s_endTime s ∧
  imageUrl l' = s_imageUrl s ∧
  description l' = s_description s ∧
  views l' = s_views s ∧
  watchers l' = s_watchers s ∧
  source l' = s_source s ∧
  lastChecked l' = Some t ∧
  url l' = url old ∧
  ownerId l' = ownerId old ∧
  createdAt l' = createdAt old ∧
  listingType l' = listingType old ∧
  buyItNowPrice l' = buyItNowPrice old.

(** ** Further concrete data *)


(** The calls on an interaction in a scripted world: each succeeds and takes
    the latency of the script. *)
Definition scripted_interaction (s : Script) : InteractionOps Z :=
  {| interaction_deferReply := fun t => (Ok tt, t + sc_latency s);
     interaction_reply := fun _ t => (Ok tt, t + sc_latency s);
     interaction_editReply := fun _ t => (Ok tt, t + sc_latency s);
     interaction_message_edit := fun _ t => (Ok tt, t + sc_latency s);
     interaction_channel_name := fun _ => "🔨desk-lamp";
     interaction_channel_setName := fun _ t => (Ok tt, t + sc_latency s);
     interaction_channel_setParent := fun _ t => (Ok tt, t + sc_latency s);
     interaction_channel_send := fun _ _ _ _ t => (Ok tt, t + sc_latency s) |}.

(** [s.slice(0, 90)] on a string of ASCII characters. *)
Definition slice90_ascii (s : string) : string := String.substring 0 90 s.

(** Button presses in channel ["chanB"]: by the owner of the lamp's record
    and by somebody else who is not staff. *)
Definition owner_press : Interaction := mkInteraction "chanB" "owner" false.
Definition stranger_press : Interaction :=
  mkInteraction "chanB" "stranger" false.

(** A press of one of the three status buttons, and of Refresh, in a
    scripted world. *)
Definition run_press (s : Script) (t : Transition) (i : Interaction)
    (w : World Z) : World Z :=
  after (@handler_of Z (scripted_interaction s)
           "archived-category" slice90_ascii t i) w.

Definition run_refresh (s : Script) (i : Interaction) (w : World Z)
    : World Z :=
  after (@ebay_refresh Z (scripted s) (scripted_interaction s) i) w.

(** An open photo ticket with one image, and a message with the same image
    again, a text file, and a new image sent twice. *)
Definition sofa : Ticket :=
  {| t_ownerId := "seller";
     t_itemName := "Sofa";
     t_itemDesc := "Three seats";
     t_images := ["https://cdn.example/front.png"];
     t_status := "open";
     t_createdAt := T0 |}.

Definition upload : list Attachment :=
  [ mkAttachment (Some "image/png") "https://cdn.example/front.png";
    mkAttachment (Some "text/plain") "https://cdn.example/notes.txt";
    mkAttachment None "https://cdn.example/side.JPG";
    mkAttachment None "https://cdn.example/side.JPG" ].

Definition sofa_with_upload : Ticket :=
  {| t_ownerId := "seller";
     t_itemName := "Sofa";
     t_itemDesc := "Three seats";
     t_images := ["https://cdn.example/front.png";
                  "https://cdn.example/side.JPG"];
     t_status := "open";
     t_createdAt := T0 |}.

(** A configuration without credentials, an OAuth endpoint that accepts one
    pair of keys with a token valid for two hours, and the state of a bot
    that has no credentials and no token. *)
Definition no_config : Config := mkConfig "" "" "".

Definition one_client : OAuth :=
  fun appId certId =>
    if String.eqb appId "app-1" && String.eqb certId "cert-1"
    then Ok ("token-1", 7200)
    else Thrown "eBay OAuth failed: 401 - invalid_client".

Definition fresh_state : ApiState := mkApiState None None 0.

Definition stored_state : ApiState :=
  mkApiState (Some (mkStored "app-1" "dev-1" "cert-1" "admin" T0)) None 0.

(** A category that already holds the channels of two desk lamps. *)
Definition two_lamps : gset string :=
  {[ "🔨desk-lamp"; "🔨desk-lamp-2" ]}.

(** A crash report directory. *)
Definition crash_dir : list string :=
  ["crash_report_1.txt"; "notes.md"; "crash_report_12.txt";
   "crash_report_x.txt"].

(** The channel of the lamp as [createUniqueChannelName] named it, in the
    auctions category. *)
Definition lamp_channel : Channel :=
  {| ch_parentId := Some "auctions-category";
     ch_name := hammer ++ [0x2D; 0x6C; 0x61; 0x6D; 0x70]%N |}.

(** The lamp's page with the stored price, bid count and status, and with
    more views and another watcher. *)
Definition lamp_page_viewed : Extracted :=
  {| x_title := "Desk lamp";
     x_currentPrice := "$25.00";
     x_bidCount := 4;
     x_endTime := Some (T0 + 1800000);
     x_imageUrl := None;
     x_description := "";
     x_views := 25;
     x_watchers := 3;
     x_isEnded := false;
     x_listingType := "auction";
     x_buyItNowPrice := None |}.

(** eBay serving that page, and a gateway that answers every call. *)
Definition viewed_script : Script :=
  {| sc_apiEnabled := false;
     sc_api := fun _ => Thrown "eBay API credentials not configured";
     sc_scrape := fun _ => Ok lamp_page_viewed;
     sc_latency := 150;
     sc_channel := fun _ => Some "🔨desk-lamp";
     sc_hasEmbed := true |}.

(** The loop body for one entry in a scripted world; [now] is the clock
    reading taken before the loop. *)
Definition run_turn (s : Script) (now : Z) (w : World Z)
    (entry : string * Listing) : World Z :=
  @turn Z (scripted s) now w entry.

(** Rules of the kind the builders of discord.js apply: lengths of the
    texts, the range of the colour, the number of fields and the scheme of
    the image address.  They serve to evaluate [buildEbayListingEmbed]; the
    properties below hold for any rules. *)
Definition length_between (lo hi : nat) (s : string) : Outcome unit :=
  if (lo <=? String.length s)%nat && (String.length s <=? hi)%nat
  then Ok tt else Thrown "Invalid string length".

Definition example_rules : EmbedBuilderOps :=
  {| setTitle_check := length_between 1 256;
     setColor_check := fun c =>
       if (0 <=? c) && (c <=? 0xFFFFFF) then Ok tt
       else Thrown "Invalid number value";
     setDescription_check := length_between 1 4096;
     addFields_check := fun fields =>
       if (length fields <=? 25)%nat
          && forallb (λ f, is_Ok (length_between 1 256 f.1)
                           && is_Ok (length_between 1 1024 f.2)) fields
       then Ok tt else Thrown "Invalid fields";
     setFooter_check := length_between 1 2048;
     setImage_check := fun u =>
       if startsWith "http://" u || startsWith "https://" u then Ok tt
       else Thrown "Invalid URL" |}.

(** The watch once ended, stored with a title the scraper found empty. *)
Definition untitled_watch : Listing :=
  {| url := "https://www.ebay.com/itm/123456789012";
     ownerId := "owner";
     title := "";
     currentPrice := "$10.00";
     bidCount := 2;
     endTime := Some (T0 - 60000);
     imageUrl := None;
     description := "";
     views := 0;
     watchers := 0;
     status := "ended";
     source := "scrape";
     listingType := "auction";
     buyItNowPrice := None;
     lastChecked := Some (T0 - 120000);
     createdAt := T0 - 86400000 |}.

(** * Properties *)

(** ** Interval policy *)

(** C4, as stated, fails at the deadline itself: with [endTime = now] the
    remaining time is 0, inside the band [0, 1h) that the claim maps to two
    minutes, and the policy returns [null]. *)
Lemma interval_at_deadline_is_null :
  0 <= T0 - T0 < HOUR ∧
  getUpdateIntervalMs T0 (Some T0) = None ∧
  getUpdateIntervalMs T0 (Some T0) ≠ Some (2 * MINUTE).
Proof. by vm_compute. Qed.

(** C4, amended: an unknown deadline ([null], or the falsy 0) gives 30
    minutes; for any other deadline with remaining time [r = endTime - now],
    [r <= 0] gives [null], [0 < r < 1h] gives 2 minutes, [1h <= r < 8h]
    gives 5 minutes, [8h <= r < 3d] gives 15 minutes and [3d <= r] gives 30
    minutes. *)
Theorem getUpdateIntervalMs_bands (now : Z) (endTime : option Z) :
  (endTime = None ∨ endTime = Some 0 →
     getUpdateIntervalMs now endTime = Some (30 * MINUTE)) ∧
  (∀ e, endTime = Some e → e ≠ 0 →
     (e - now <= 0 → getUpdateIntervalMs now endTime = None) ∧
     (0 < e - now < HOUR →
        getUpdateIntervalMs now endTime = Some (2 * MINUTE)) ∧
     (HOUR <= e - now < 8 * HOUR →
        getUpdateIntervalMs now endTime = Some (5 * MINUTE)) ∧
     (8 * HOUR <= e - now < 3 * DAY →
        getUpdateIntervalMs now endTime = Some (15 * MINUTE)) ∧
     (3 * DAY <= e - now →
        getUpdateIntervalMs now endTime = Some (30 * MINUTE))).
Proof.
  split.
  - by intros [-> | ->].
  - intros e -> He. unfold getUpdateIntervalMs, truthy, or_zero, HOUR, DAY, MINUTE.
    simpl default.
    destruct (Z.eqb_spec e 0) as [|_]; [done|]. simpl negb. cbv iota.
    repeat split; intros Hr;
      repeat match goal with
        | |- context [?a <=? ?b] => destruct (Z.leb_spec a b); try lia
        | |- context [?a <? ?b] => destruct (Z.ltb_spec a b); try lia
        end; reflexivity.
Qed.

(** The remaining durations of 30 s, 30 min, 4 h, 2 days and 10 days. *)
Lemma getUpdateIntervalMs_bands_witness :
  getUpdateIntervalMs T0 (Some (T0 + 30 * SECOND)) = Some (2 * MINUTE) ∧
  getUpdateIntervalMs T0 (Some (T0 + 30 * MINUTE)) = Some (2 * MINUTE) ∧
  getUpdateIntervalMs T0 (Some (T0 + 4 * HOUR)) = Some (5 * MINUTE) ∧
  getUpdateIntervalMs T0 (Some (T0 + 2 * DAY)) = Some (15 * MINUTE) ∧
  getUpdateIntervalMs T0 (Some (T0 + 10 * DAY)) = Some (30 * MINUTE).
Proof.
  split; [|split; [|split; [|split]]].
  - refine (proj1 (proj2 (proj2 (getUpdateIntervalMs_bands T0 _) _ eq_refl _)) _);
      by vm_compute.
  - refine (proj1 (proj2 (proj2 (getUpdateIntervalMs_bands T0 _) _ eq_refl _)) _);
      by vm_compute.
  - refine (proj1 (proj2 (proj2 (proj2 (getUpdateIntervalMs_bands T0 _) _ eq_refl _))) _);
      by vm_compute.
  - refine (proj1 (proj2 (proj2 (proj2 (proj2 (getUpdateIntervalMs_bands T0 _) _ eq_refl _)))) _);
      by vm_compute.
  - refine (proj2 (proj2 (proj2 (proj2 (proj2 (getUpdateIntervalMs_bands T0 _) _ eq_refl _)))) _);
      by vm_compute.
Defined.

(** ** Listing data source *)

Section DataSource.
Context {Ext : Type} `{ExtOps Ext}.

(** C9: with the API strategy enabled, [getEbayListing] calls it once.  If
    it returns, the result is its object, tagged [source = "api"], and the
    scraper is not called.  If it throws, the scraper is called once, on the
    world the failed API call left: when the scraper returns, the call
    returns its object, tagged [source = "scrape"]; when it throws, the call
    throws the scraper's error. *)
Theorem getEbayListing_strategy_fallback (u : string) (w : World Ext) :
  isEbayApiEnabled (ext w) = true →
  count is_api (trace (after (getEbayListing u) w)) = S (count is_api (trace w)) ∧
  match api_request u (ext w) with
  | (Ok item, x1) =>
      (∃ s, outcome (getEbayListing u) w = Ok s ∧ s_source s = "api" ∧
            s = build_snapshot "api" item) ∧
      count is_scrape (trace (after (getEbayListing u) w))
        = count is_scrape (trace w) ∧
      ext (after (getEbayListing u) w) = x1
  | (Thrown _, x1) =>
      count is_scrape (trace (after (getEbayListing u) w))
        = S (count is_scrape (trace w)) ∧
      match scrape_request u x1 with
      | (Ok page, x2) =>
          (∃ s, outcome (getEbayListing u) w = Ok s ∧ s_source s = "scrape" ∧
                s = build_snapshot "scrape" page) ∧
          ext (after (getEbayListing u) w) = x2
      | (Thrown cause, x2) =>
          outcome (getEbayListing u) w = Thrown cause ∧
          ext (after (getEbayListing u) w) = x2
      end
  end.
Proof.
  intros Hon.
  unfold getEbayListing, fetchEbayListingViaAPI, scrapeEbayListing.
  unfold_engine. rewrite Hon. simpl.
  destruct (api_request u (ext w)) as [[item|e] x1]; simpl.
  - eauto 10.
  - destruct (scrape_request u x1) as [[page|cause] x2]; simpl; eauto 10.
Qed.

End DataSource.

(** The API strategy fails and the scraper answers. *)
Lemma getEbayListing_strategy_fallback_witness :
  ∃ s, outcome (@getEbayListing Z (scripted api_script) (url watch))
         (world0 ∅) = Ok s ∧ s_source s = "scrape".
Proof.
  destruct (@getEbayListing_strategy_fallback Z (scripted api_script)
              (url watch) (world0 ∅) eq_refl) as (_ & _ & (s & Hs & Hsrc & _) & _).
  exists s. split; [exact Hs | exact Hsrc].
Defined.

(** ** Traces *)

Lemma count_app p (tr1 tr2 : list Event) :
  count p (tr1 ++ tr2) = (count p tr1 + count p tr2)%nat.
Proof. induction tr1 as [|e tr1 IH]; simpl; [done | rewrite IH; lia]. Qed.

Lemma fetched_in_app k (tr1 tr2 : list Event) :
  fetched_in k (tr1 ++ tr2) = fetched_in k tr1 ++ fetched_in k tr2.
Proof.
  induction tr1 as [|e tr1 IH]; simpl; [done|].
  destruct e; try done. destruct (String.eqb _ _); simpl; by rewrite ?IH.
Qed.

Lemma sent_to_app k (tr1 tr2 : list Event) :
  sent_to k (tr1 ++ tr2) = sent_to k tr1 ++ sent_to k tr2.
Proof.
  induction tr1 as [|e tr1 IH]; simpl; [done|].
  destruct e; try done. destruct (String.eqb _ _); simpl; by rewrite ?IH.
Qed.

Lemma embeds_of_app k (tr1 tr2 : list Event) :
  embeds_of k (tr1 ++ tr2) = embeds_of k tr1 ++ embeds_of k tr2.
Proof.
  induction tr1 as [|e tr1 IH]; simpl; [done|].
  destruct e; try done. destruct (String.eqb _ _); simpl; by rewrite ?IH.
Qed.

Lemma quiet_count_fetch k (evs : list Event) :
  forallb quiet evs = true → count (is_fetch_of k) evs = 0%nat.
Proof.
  induction evs as [|e evs IH]; simpl; [done|].
  intros [He Hevs]%andb_prop. rewrite (IH Hevs). by destruct e.
Qed.

Lemma quiet_fetched_in k (evs : list Event) :
  forallb quiet evs = true → fetched_in k evs = [].
Proof.
  induction evs as [|e evs IH]; simpl; [done|].
  intros [He Hevs]%andb_prop. rewrite (IH Hevs). by destruct e.
Qed.

Lemma quiet_step_trans {Ext} (w1 w2 w3 : World Ext) :
  quiet_step w1 w2 → quiet_step w2 w3 → quiet_step w1 w3.
Proof.
  intros [Hf1 (evs1 & Ht1 & Hq1)] [Hf2 (evs2 & Ht2 & Hq2)].
  split; [congruence|]. exists (evs2 ++ evs1).
  rewrite Ht2, Ht1, forallb_app, Hq1, Hq2. by rewrite app_assoc.
Qed.

Lemma quiet_step_emit {Ext} (w : World Ext) x e :
  quiet e = true → quiet_step w (mkWorld x (file w) (e :: trace w)).
Proof. intros He. split; [done|]. exists [e]. simpl. by rewrite He. Qed.

Section Frames.
Context {Ext : Type} `{ExtOps Ext}.

(** The data source touches neither the data file nor the fetch events. *)
Lemma getEbayListing_quiet (u : string) (w : World Ext) :
  quiet_step w (after (getEbayListing u) w).
Proof.
  unfold getEbayListing, fetchEbayListingViaAPI, scrapeEbayListing.
  unfold_engine. simpl.
  destruct (isEbayApiEnabled (ext w)); simpl.
  - destruct (api_request u (ext w)) as [[item|e] x1]; simpl.
    + by apply quiet_step_emit.
    + destruct (scrape_request u x1) as [[page|e2] x2]; simpl;
        (eapply quiet_step_trans; [apply (quiet_step_emit w x1 (EvApi u)); done|]);
        by apply (quiet_step_emit (mkWorld x1 _ _)).
  - destruct (scrape_request u (ext w)) as [[page|e2] x2]; simpl;
      by apply quiet_step_emit.
Qed.

End Frames.

(** ** Notifications and the embed *)

Section Announce.
Context {Ext : Type} `{ExtOps Ext}.

Lemma notification_of_changed oP oB oS nd :
  changed oP oB oS nd = true → is_Some (notification_of oP oB oS nd).
Proof.
  unfold changed, notification_of.
  destruct (justEnded oS nd); [by eauto|].
  rewrite orb_false_r. intros ->. by eauto.
Qed.

Lemma announce_run (k : string) (l' : Listing) oP oB oS nd (w : World Ext) :
  ∃ evs,
    trace (after (announce k l' oP oB oS nd) w) = evs ++ trace w ∧
    file (after (announce k l' oP oB oS nd) w) = file w ∧
    forallb quiet evs = true ∧
    (changed oP oB oS nd = false →
       outcome (announce k l' oP oB oS nd) w = Ok tt) ∧
    announced k l' oP oB oS nd evs.
Proof.
  unfold announce. fold (changed oP oB oS nd).
  destruct (changed oP oB oS nd) eqn:Hch.
  2: { exists []. unfold announced. rewrite Hch. unfold_engine. simpl.
       repeat split; auto; done. }
  unfold announced. rewrite Hch.
  destruct (notification_of_changed _ _ _ _ Hch) as [n Hn]. rewrite Hn.
  unfold_engine. simpl.
  destruct (guild_fetch (ext w)) as [[[]|e] x1] eqn:Eg; [|leaf].
  simpl.
  destruct (channel_fetch k x1) as [[name|] x2] eqn:Ec; [|leaf].
  simpl.
  destruct (find_embed_message k x2) as [[[|]|e] x3] eqn:Ef; [| |leaf].
  - simpl. destruct (message_edit k l' x3) as [[[]|e] x4] eqn:Ee; [|leaf].
    simpl. destruct (justEnded oS nd); simpl.
    + destruct (negb _); simpl.
      * destruct (channel_setName k (swapEndedEmoji name) x4) as [[[]|e] x5]; simpl;
          destruct (channel_send k n _) as [[[]|e'] x6] eqn:Es; leaf.
      * destruct (channel_send k n _) as [[[]|e'] x6] eqn:Es; leaf.
    + destruct (channel_send k n _) as [[[]|e'] x6] eqn:Es; leaf.
  - simpl. destruct (justEnded oS nd); simpl.
    + destruct (negb _); simpl.
      * destruct (channel_setName k (swapEndedEmoji name) x3) as [[[]|e] x5]; simpl;
          destruct (channel_send k n _) as [[[]|e'] x6] eqn:Es; leaf.
      * destruct (channel_send k n _) as [[[]|e'] x6] eqn:Es; leaf.
    + destruct (channel_send k n _) as [[[]|e'] x6] eqn:Es; leaf.
Qed.
End Announce.

(** ** One update *)

Section Update.
Context {Ext : Type} `{ExtOps Ext}.

Lemma announced_error k l' oP oB oS nd c e evs :
  changed oP oB oS nd = true →
  announced k l' oP oB oS nd evs →
  announced k l' oP oB oS nd (EvError c e :: evs).
Proof.
  intros Hch (_ & Hs & He & Hrs & Hre).
  split; [by rewrite Hch|]. done.
Qed.

Lemma updateEbayListing_spec (k : string) (l : Listing) (w : World Ext) :
  (∃ b, outcome (updateEbayListing k l) w = Ok b) ∧
  match getEbayListing (url l)
          (mkWorld (ext w) (file w) (EvFetch k (url l) :: trace w)) with
  | (Thrown e, w1) =>
      file (after (updateEbayListing k l) w) = file w ∧
      ∃ evs, trace (after (updateEbayListing k l) w) = evs ++ trace w1 ∧
             forallb quiet evs = true
  | (Ok newData, w1) =>
      ∀ m, file w = Some m →
        let shown := merge l newData (Date_now (ext w1)) in
        file (after (updateEbayListing k l) w) = Some (<[k := shown]> m) ∧
        ∃ evs,
          trace (after (updateEbayListing k l) w)
            = evs ++ EvFetched k newData (Date_now (ext w1)) :: trace w1 ∧
          forallb quiet evs = true ∧
          announced k shown (currentPrice l) (bidCount l) (status l) newData evs
  end.
Proof.
  pose proof (getEbayListing_quiet (url l)
    (mkWorld (ext w) (file w) (EvFetch k (url l) :: trace w))) as [Hfile _].
  unfold updateEbayListing. unfold_engine. simpl in *.
  destruct (getEbayListing (url l) _) as [[newData|e] w1]; simpl in *.
  - destruct (file w1) as [m1|] eqn:Hm1; simpl.
    + set (shown := merge l newData (Date_now (ext w1))).
      set (w2 := mkWorld (ext w1) (Some (<[k:=shown]> m1))
                   (EvFetched k newData (Date_now (ext w1)) :: trace w1)).
      destruct (announce_run k shown (currentPrice l) (bidCount l) (status l)
                  newData w2) as (evs & Ht & Hf & Hq & Hok & Han).
      unfold_engine.
      destruct (announce k shown _ _ _ newData w2) as [[[]|e] w3]; simpl in *.
      * split; [by eauto|]. intros m Hm. rewrite <- Hfile in Hm.
        injection Hm as <-. split; [done|]. by exists evs.
      * split; [by eauto|]. intros m Hm. rewrite <- Hfile in Hm.
        injection Hm as <-. split; [done|].
        exists (EvError ("Failed to update eBay listing " +:+ k) e :: evs).
        simpl. rewrite Ht. split; [done|]. split; [done|].
        apply announced_error; [|done].
        destruct (changed _ _ _ newData); [done|]. by specialize (Hok eq_refl).
    + split; [by eauto|]. intros m Hm. congruence.
  - split; [by eauto|]. split; [done|].
    by exists [EvError ("Failed to update eBay listing " +:+ k) e].
Qed.

End Update.

(** ** The scan *)

Section Scan.
Context {Ext : Type} `{ExtOps Ext}.

Lemma updateEbayListing_summary (k : string) (l : Listing) (w : World Ext)
    (m : gmap string Listing) :
  file w = Some m →
  (∃ b, outcome (updateEbayListing k l) w = Ok b) ∧
  ∃ evs m',
    trace (after (updateEbayListing k l) w) = evs ++ trace w ∧
    file (after (updateEbayListing k l) w) = Some m' ∧
    count (is_fetch_of k) evs = 1%nat ∧
    (∀ k', k' ≠ k →
       count (is_fetch_of k') evs = 0%nat ∧ fetched_in k' evs = []) ∧
    ((m' = m ∧ fetched_in k evs = []) ∨
     (∃ s t, m' = <[k := merge l s t]> m ∧ fetched_in k evs = [(s, t)])).
Proof.
  intros Hm.
  destruct (updateEbayListing_spec k l w) as [Hok Hrun]. split; [done|].
  pose proof (getEbayListing_quiet (url l)
    (mkWorld (ext w) (file w) (EvFetch k (url l) :: trace w)))
    as [_ (evs0 & Ht0 & Hq0)].
  unfold after in Ht0 at 1.
  assert (∀ k', k' ≠ k → String.eqb k k' = false) as Hne
    by (intros k' Hk'; apply String.eqb_neq; congruence).
  destruct (getEbayListing (url l) _) as [[newData|e] w1]; simpl in Ht0.
  - destruct (Hrun m Hm) as (Hfile & evs & Ht & Hq & _).
    exists (evs ++ EvFetched k newData (Date_now (ext w1))
                :: evs0 ++ [EvFetch k (url l)]),
      (<[k := merge l newData (Date_now (ext w1))]> m).
    split. { rewrite Ht, Ht0. by repeat (rewrite <- app_assoc; simpl). }
    split; [done|].
    repeat (rewrite ?count_app, ?fetched_in_app; simpl).
    rewrite !(quiet_count_fetch _ evs), !(quiet_count_fetch _ evs0),
      !(quiet_fetched_in _ evs), !(quiet_fetched_in _ evs0) by done.
    rewrite String.eqb_refl. simpl.
    split; [done|]. split.
    + intros k' Hk'. repeat (rewrite ?count_app, ?fetched_in_app; simpl).
      rewrite !(quiet_count_fetch _ evs), !(quiet_count_fetch _ evs0),
        !(quiet_fetched_in _ evs), !(quiet_fetched_in _ evs0) by done.
      by rewrite (Hne k' Hk').
    + right. by eexists _, _.
  - destruct Hrun as (Hfile & evs & Ht & Hq).
    exists (evs ++ evs0 ++ [EvFetch k (url l)]), m.
    split. { rewrite Ht, Ht0. by repeat (rewrite <- app_assoc; simpl). }
    split; [congruence|].
    repeat (rewrite ?count_app, ?fetched_in_app; simpl).
    rewrite !(quiet_count_fetch _ evs), !(quiet_count_fetch _ evs0),
      !(quiet_fetched_in _ evs), !(quiet_fetched_in _ evs0) by done.
    rewrite String.eqb_refl. simpl.
    split; [done|]. split.
    + intros k' Hk'. repeat (rewrite ?count_app, ?fetched_in_app; simpl).
      rewrite !(quiet_count_fetch _ evs), !(quiet_count_fetch _ evs0),
        !(quiet_fetched_in _ evs), !(quiet_fetched_in _ evs0) by done.
      by rewrite (Hne k' Hk').
    + by left.
Qed.

Lemma processListing_summary (now : Z) (k : string) (l : Listing)
    (w : World Ext) (m : gmap string Listing) :
  file w = Some m →
  outcome (processListing now (k, l)) w = Ok tt ∧
  ∃ evs m',
    trace (after (processListing now (k, l)) w) = evs ++ trace w ∧
    file (after (processListing now (k, l)) w) = Some m' ∧
    count (is_fetch_of k) evs
      = (if fetches now (Date_now (ext w)) l then 1 else 0)%nat ∧
    (∀ k', k' ≠ k →
       count (is_fetch_of k') evs = 0%nat ∧ fetched_in k' evs = []) ∧
    ((m' = m ∧ fetched_in k evs = []) ∨
     (fetches now (Date_now (ext w)) l = true ∧
      ∃ s t, m' = <[k := merge l s t]> m ∧ fetched_in k evs = [(s, t)])).
Proof.
  intros Hm. unfold processListing, fetches.
  destruct (skipped_status (status l)); simpl.
  { unfold_engine. simpl. split; [done|]. exists [], m. by auto 10. }
  destruct (updateEbayListing_summary k l w m Hm)
    as ([b Hb] & evs & m' & Ht & Hf & Hc & Ho & Hs).
  destruct (updateEbayListing_summary k (set_status "ended" l) w m Hm)
    as ([b2 Hb2] & evs2 & m2 & Ht2 & Hf2 & Hc2 & Ho2 & Hs2).
  unfold_engine. cbn beta.
  destruct (getUpdateIntervalMs (Date_now (ext w)) (endTime l)) as [interval|].
  - destruct (interval <=? now - or_zero (lastChecked l)).
    + destruct (updateEbayListing k l w) as [[b'|e] w']; simpl in *; [|done].
      split; [done|]. exists evs, m'. repeat (split; [done|]).
      destruct Hs as [?|?]; [by left | by right].
    + simpl. split; [done|]. exists [], m. by auto 10.
  - destruct (updateEbayListing k (set_status "ended" l) w) as [[b'|e] w'];
      simpl in *; [|done].
    split; [done|]. exists evs2, m2. repeat (split; [done|]).
    destruct Hs2 as [?|?]; [by left | by right].
Qed.

Lemma scan_cons (now : Z) (e : string * Listing) rest (w : World Ext) :
  scan now (e :: rest) w
  = match processListing now e w with
    | (Ok _, w') => scan now rest w'
    | (Thrown err, w') => (Thrown err, w')
    end.
Proof. reflexivity. Qed.

(** The scan of entries with distinct keys: it ends normally; a channel that
    is not scanned keeps its record and gets no fetch; a scanned channel is
    fetched when its own due test holds at its turn, and its record is
    either kept (no fetch returned) or the merge of the one fetch that
    returned. *)
Lemma scan_summary (now : Z) (entries : list (string * Listing)) :
  NoDup entries.*1 →
  ∀ (w : World Ext) (m : gmap string Listing),
    file w = Some m →
    outcome (scan now entries) w = Ok tt ∧
    ∃ evs m',
      trace (after (scan now entries) w) = evs ++ trace w ∧
      file (after (scan now entries) w) = Some m' ∧
      (∀ k, k ∉ entries.*1 →
         m' !! k = m !! k ∧ count (is_fetch_of k) evs = 0%nat ∧
         fetched_in k evs = []) ∧
      (∀ k l, (k, l) ∈ entries →
         ∃ clock,
           count (is_fetch_of k) evs
             = (if fetches now clock l then 1 else 0)%nat ∧
           ((m' !! k = m !! k ∧ fetched_in k evs = []) ∨
            (fetches now clock l = true ∧
             ∃ s t, m' !! k = Some (merge l s t) ∧
                    fetched_in k evs = [(s, t)]))).
Proof.
  induction entries as [|[k0 l0] rest IH]; intros Hnd w m Hm.
  { split; [done|]. exists [], m. split; [done|]. split; [done|].
    split; [done|]. intros k l Hin. by apply elem_of_nil in Hin. }
  rewrite fmap_cons in Hnd. simpl in Hnd. apply NoDup_cons in Hnd as [Hk0 Hnd].
  destruct (processListing_summary now k0 l0 w m Hm)
    as (Hok1 & evs1 & m1 & Ht1 & Hf1 & Hc1 & Hother & Hself).
  unfold after, outcome in *. rewrite scan_cons.
  destruct (processListing now (k0, l0) w) as [[[]|e] w1]; simpl in *; [|done].
  destruct (IH Hnd w1 m1 Hf1) as (Hok2 & evs2 & m2 & Ht2 & Hf2 & Hout & Hin).
  split; [done|]. exists (evs2 ++ evs1), m2.
  split. { rewrite Ht2, Ht1. by rewrite app_assoc. }
  split; [done|]. split.
  - intros k Hk.
    apply not_elem_of_cons in Hk as [Hne Hk].
    destruct (Hout k Hk) as (Hl2 & Hc2 & Hd2).
    destruct (Hother k Hne) as (Hc & Hd).
    rewrite count_app, fetched_in_app, Hc2, Hd2, Hc, Hd, Hl2.
    split; [|done].
    destruct Hself as [[-> _] | (_ & s & t & -> & _)]; [done|].
    by rewrite lookup_insert_ne.
  - intros k l [Heq | Hrest]%elem_of_cons.
    + injection Heq as -> ->.
      destruct (Hout k0 Hk0) as (Hl2 & Hc2 & Hd2).
      rewrite count_app, fetched_in_app, Hc2, Hd2, Hl2. simpl.
      exists (Date_now (ext w)). split; [done|].
      destruct Hself as [[-> Hd] | (Hdue & s & t & -> & Hd)].
      * by left.
      * right. split; [done|]. exists s, t. by rewrite lookup_insert_eq.
    + assert (k ≠ k0) as Hne.
      { intros ->. apply Hk0.
        by apply (list_elem_of_fmap_2 fst rest (k0, l)). }
      destruct (Hin k l Hrest) as (clock & Hc2 & Hd2).
      destruct (Hother k Hne) as (Hc & Hd).
      rewrite count_app, fetched_in_app, Hc, Hd, Hc2, !app_nil_r.
      exists clock. split; [lia|].
      assert (m1 !! k = m !! k) as <-; [|done].
      destruct Hself as [[-> _] | (_ & s & t & -> & _)]; [done|].
      by rewrite lookup_insert_ne.
Qed.

(** One tick, channel by channel. *)
Lemma tick_summary (w : World Ext) (m : gmap string Listing) :
  file w = Some m →
  outcome tick w = Ok tt ∧
  ∃ evs m',
    trace (after tick w) = evs ++ trace w ∧
    file (after tick w) = Some m' ∧
    (∀ k, m !! k = None →
       m' !! k = None ∧ count (is_fetch_of k) evs = 0%nat ∧
       fetched_in k evs = []) ∧
    (∀ k l, m !! k = Some l →
       ∃ clock,
         count (is_fetch_of k) evs
           = (if fetches (Date_now (ext w)) clock l then 1 else 0)%nat ∧
         ((m' !! k = Some l ∧ fetched_in k evs = []) ∨
          (fetches (Date_now (ext w)) clock l = true ∧
           ∃ s t, m' !! k = Some (merge l s t) ∧
                  fetched_in k evs = [(s, t)]))).
Proof.
  intros Hm.
  destruct (scan_summary (Date_now (ext w)) (map_to_list m)
              (NoDup_fst_map_to_list m) w m Hm)
    as (Hok & evs & m' & Ht & Hf & Hout & Hin).
  unfold tick. unfold_engine. rewrite Hm. cbn beta iota.
  destruct (scan (Date_now (ext w)) (map_to_list m) w) as [[[]|e] w'];
    simpl in *; [|done].
  split; [done|]. exists evs, m'. split; [done|]. split; [done|]. split.
  - intros k Hk. destruct (Hout k) as (Hl & Hc & Hd); [|by rewrite Hl, Hk].
    intros [[k' l] [-> Hkl]]%list_elem_of_fmap_1.
    apply elem_of_map_to_list in Hkl. simpl in Hk. congruence.
  - intros k l Hk. apply elem_of_map_to_list in Hk as Hkl.
    destruct (Hin k l Hkl) as (clock & Hc & Hd). exists clock.
    split; [done|]. by rewrite <- Hk.
Qed.

End Scan.

(** ** The tick *)



Section Tick.
Context {Ext : Type} `{ExtOps Ext}.

Lemma tick_skips (w : World Ext) (k : string) (l : Listing) :
  record_of w k = Some l →
  skipped_status (status l) = true →
  record_of (after tick w) k = Some l ∧
  count (is_fetch_of k) (trace (after tick w)) = count (is_fetch_of k) (trace w) ∧
  fetched_in k (trace (after tick w)) = fetched_in k (trace w).
Proof.
  unfold record_of. destruct (file w) as [m|] eqn:Hm; [|done].
  intros Hk Hskip.
  destruct (tick_summary w m Hm) as (_ & evs & m' & Ht & Hf & _ & Hin).
  destruct (Hin k l Hk) as (clock & Hc & Hd).
  unfold fetches in *. rewrite Hskip in *. simpl in *.
  rewrite Hf, Ht, count_app, fetched_in_app, Hc.
  destruct Hd as [[-> ->] | [? _]]; done.
Qed.


End Tick.

(** ** A completed fetch *)


Section CompletedFetch.
Context {Ext : Type} `{ExtOps Ext}.

(** What [updateEbayListing] does once its fetch has returned [newData]. *)
Lemma updateEbayListing_completed (k : string) (l : Listing) (w : World Ext)
    (m : gmap string Listing) (newData : Snapshot) :
  file w = Some m →
  outcome (getEbayListing (url l)) (fetch_start k l w) = Ok newData →
  let w1 := after (getEbayListing (url l)) (fetch_start k l w) in
  let shown := merge l newData (Date_now (ext w1)) in
  file (after (updateEbayListing k l) w) = Some (<[k := shown]> m) ∧
  ∃ evs,
    trace (after (updateEbayListing k l) w)
      = evs ++ EvFetched k newData (Date_now (ext w1)) :: trace w1 ∧
    announced k shown (currentPrice l) (bidCount l) (status l) newData evs.
Proof.
  intros Hm Hok. destruct (updateEbayListing_spec k l w) as [_ Hrun].
  unfold outcome, after, fetch_start in *.
  destruct (getEbayListing (url l) _) as [[nd|e] w1]; simpl in *; [|done].
  injection Hok as ->.
  destruct (Hrun m Hm) as (Hf & evs & Ht & _ & Han). split; [done|].
  by exists evs.
Qed.

End CompletedFetch.

(** ** The loop body at a record's turn *)

Lemma count_le_app p (evs tr : list Event) :
  (count p tr <= count p (evs ++ tr))%nat.
Proof. rewrite count_app. lia. Qed.

(** A record that is due at the start of the tick is still due when its
    turn comes, as long as the clock has not run backwards. *)
Lemma fetches_later (now clock : Z) (l : Listing) :
  fetches now now l = true → now <= clock → fetches now clock l = true.
Proof.
  unfold fetches. destruct (skipped_status (status l)); [done|]. simpl.
  unfold getUpdateIntervalMs, truthy, or_zero.
  destruct (endTime l) as [e|]; simpl; [|done].
  destruct (e =? 0); simpl; [done|]. intros Hdue Hclock.
  repeat match goal with
    | H : context [?a <=? ?b] |- _ => destruct (Z.leb_spec a b)
    | H : context [?a <? ?b] |- _ => destruct (Z.ltb_spec a b)
    | |- context [?a <=? ?b] => destruct (Z.leb_spec a b)
    | |- context [?a <? ?b] => destruct (Z.ltb_spec a b)
    end; try done; lia.
Qed.

Section TurnLemmas.
Context {Ext : Type} `{ExtOps Ext}.

Lemma getEbayListing_requests (u : string) (w : World Ext) :
  (count (is_request_of u) (trace w)
   < count (is_request_of u) (trace (after (getEbayListing u) w)))%nat.
Proof.
  unfold getEbayListing, fetchEbayListingViaAPI, scrapeEbayListing.
  unfold_engine. simpl.
  destruct (isEbayApiEnabled (ext w)); simpl.
  - destruct (api_request u (ext w)) as [[item|e] x]; simpl;
      [rewrite String.eqb_refl; lia|].
    destruct (scrape_request u x) as [[page|e'] x']; simpl;
      rewrite String.eqb_refl; lia.
  - destruct (scrape_request u (ext w)) as [[page|e'] x']; simpl;
      rewrite String.eqb_refl; lia.
Qed.


Lemma updateEbayListing_never_throws (k : string) (l : Listing)
    (w : World Ext) :
  ∃ b, outcome (updateEbayListing k l) w = Ok b.
Proof. by destruct (updateEbayListing_spec k l w). Qed.

(** The trace of [updateEbayListing] holds the whole run of its call of
    [getEbayListing]. *)
Lemma updateEbayListing_trace (k : string) (l : Listing) (w : World Ext) :
  ∃ evs,
    trace (after (updateEbayListing k l) w)
    = evs ++ trace (after (getEbayListing (url l)) (fetch_start k l w)).
Proof.
  unfold updateEbayListing, fetch_start. unfold_engine. simpl.
  destruct (getEbayListing (url l) _) as [[newData|e] w1]; simpl.
  - destruct (file w1) as [m1|]; simpl.
    + set (shown := merge l newData (Date_now (ext w1))).
      set (w2 := mkWorld (ext w1) _ _).
      destruct (announce_run k shown (currentPrice l) (bidCount l) (status l)
                  newData w2) as (evs & Ht & _).
      unfold_engine.
      destruct (announce k shown _ _ _ newData w2) as [[[]|e] w3]; simpl in *.
      * exists (evs ++ [EvFetched k newData (Date_now (ext w1))]).
        rewrite Ht. by rewrite <- app_assoc.
      * exists (EvError ("Failed to update eBay listing " +:+ k) e
                :: evs ++ [EvFetched k newData (Date_now (ext w1))]).
        rewrite Ht. simpl. by rewrite <- app_assoc.
    + by eexists [_; _].
  - by eexists [_].
Qed.

Lemma processListing_never_throws (now : Z) (e : string * Listing)
    (w : World Ext) :
  outcome (processListing now e) w = Ok tt.
Proof.
  destruct e as [k l]. unfold processListing. unfold_engine.
  by destruct (_ w) as [[[]|err] w'].
Qed.

(** The loop body calls [updateEbayListing] when [fetches] holds at the
    clock reading of its turn, and does nothing otherwise. *)
Lemma turn_unfold (now : Z) (k : string) (l : Listing) (w : World Ext) :
  turn now w (k, l)
  = if fetches now (Date_now (ext w)) l
    then after (updateEbayListing k (handed (Date_now (ext w)) l)) w
    else w.
Proof.
  unfold turn, processListing, fetches, handed.
  destruct (skipped_status (status l)); [done|].
  unfold_engine. cbn beta iota. simpl negb. cbv iota.
  destruct (getUpdateIntervalMs (Date_now (ext w)) (endTime l)) as [i|].
  - destruct (i <=? now - or_zero (lastChecked l)); [|done].
    destruct (updateEbayListing_never_throws k l w) as [b Hb].
    unfold outcome in Hb.
    by destruct (updateEbayListing k l w) as [[b'|e] w'].
  - destruct (updateEbayListing_never_throws k (set_status "ended" l) w)
      as [b Hb].
    unfold outcome in Hb.
    by destruct (updateEbayListing k (set_status "ended" l) w) as [[b'|e] w'].
Qed.

Lemma handed_fetch_start (clock : Z) (k : string) (l : Listing)
    (w : World Ext) :
  url (handed clock l) = url l ∧
  fetch_start k (handed clock l) w = fetch_start k l w ∧
  ∀ s t, merge (handed clock l) s t = merge l s t.
Proof.
  unfold handed. by destruct (getUpdateIntervalMs clock (endTime l)).
Qed.

(** The scan runs the loop body for every entry, one after the other. *)
Lemma scan_is_fold (now : Z) (entries : list (string * Listing))
    (w : World Ext) :
  scan now entries w = (Ok tt, foldl (turn now) w entries).
Proof.
  revert w. induction entries as [|e rest IH]; intros w; [done|].
  rewrite scan_cons. pose proof (processListing_never_throws now e w) as Hok.
  simpl. change (turn now w e) with (snd (processListing now e w)).
  unfold outcome in Hok.
  destruct (processListing now e w) as [[[]|err] w1]; simpl in *; [|done].
  apply IH.
Qed.

Lemma tick_is_fold (w : World Ext) (m : gmap string Listing) :
  file w = Some m →
  tick w = (Ok tt, foldl (turn (Date_now (ext w))) w (map_to_list m)).
Proof.
  intros Hm. unfold tick. unfold_engine. rewrite Hm. cbn beta iota.
  by rewrite scan_is_fold.
Qed.

(** Requests for a page are only added by a turn, and one is added by the
    turn of a record with that URL that is fetched. *)
Lemma turn_requests (now : Z) (k : string) (l : Listing) (u : string)
    (w : World Ext) :
  (count (is_request_of u) (trace w)
   <= count (is_request_of u) (trace (turn now w (k, l))))%nat ∧
  (fetches now (Date_now (ext w)) l = true →
   count (is_request_of (url l)) (trace w)
   < count (is_request_of (url l)) (trace (turn now w (k, l))))%nat.
Proof.
  rewrite turn_unfold. destruct (fetches now (Date_now (ext w)) l); [|done].
  set (l0 := handed (Date_now (ext w)) l).
  destruct (handed_fetch_start (Date_now (ext w)) k l w) as (Hu & Hs & _).
  fold l0 in Hu, Hs.
  destruct (updateEbayListing_trace k l0 w) as (evs & ->).
  rewrite Hu, Hs.
  assert (∀ v, count (is_request_of v) (trace (fetch_start k l w))
               = count (is_request_of v) (trace w)) as Hstart by done.
  split.
  - etrans; [|apply count_le_app]. rewrite <- Hstart.
    destruct (getEbayListing_quiet (url l) (fetch_start k l w))
      as (_ & evs0 & -> & _).
    apply count_le_app.
  - intros _. eapply Nat.lt_le_trans; [|apply count_le_app].
    rewrite <- Hstart. apply getEbayListing_requests.
Qed.

End TurnLemmas.

Lemma refreshed_from_merge (l : Listing) (s : Snapshot) (t : Z) :
  refreshed_from l s t (merge l s t).
Proof. by repeat split. Qed.

Section TurnClaims.
Context {Ext : Type} `{ExtOps Ext}.

(** The store after the turn of a record that is fetched. *)
Lemma turn_store (now : Z) (k : string) (l : Listing) (w : World Ext)
    (m : gmap string Listing) :
  file w = Some m →
  fetches now (Date_now (ext w)) l = true →
  count (is_fetch_of k) (trace (turn now w (k, l)))
    = S (count (is_fetch_of k) (trace w)) ∧
  match outcome (getEbayListing (url l)) (fetch_start k l w) with
  | Thrown _ =>
      file (turn now w (k, l)) = Some m ∧
      fetched_in k (trace (turn now w (k, l))) = fetched_in k (trace w)
  | Ok s =>
      let t := Date_now (ext (after (getEbayListing (url l))
                                (fetch_start k l w))) in
      file (turn now w (k, l)) = Some (<[k := merge l s t]> m) ∧
      fetched_in k (trace (turn now w (k, l)))
        = (s, t) :: fetched_in k (trace w)
  end.
Proof.
  intros Hm Hdue. rewrite turn_unfold, Hdue.
  set (l0 := handed (Date_now (ext w)) l).
  destruct (handed_fetch_start (Date_now (ext w)) k l w) as (Hu & _ & Hmg).
  fold l0 in Hu, Hmg.
  destruct (updateEbayListing_spec k l0 w) as [_ Hrun].
  destruct (getEbayListing_quiet (url l) (fetch_start k l w))
    as (_ & evs0 & Ht0 & Hq0).
  rewrite Hu in Hrun. unfold outcome, after, fetch_start in *.
  destruct (getEbayListing (url l) _) as [[s|e] w1]; simpl in *.
  - destruct (Hrun m Hm) as (Hfile & evs & Ht & Hq & _).
    rewrite Hfile, Hmg, Ht, Ht0.
    rewrite !count_app, !fetched_in_app. simpl.
    rewrite !count_app, !fetched_in_app. simpl.
    rewrite String.eqb_refl.
    rewrite !(quiet_count_fetch k evs), !(quiet_count_fetch k evs0),
      !(quiet_fetched_in k evs), !(quiet_fetched_in k evs0) by done.
    done.
  - destruct Hrun as (Hfile & evs & Ht & Hq).
    rewrite Hfile, Hm, Ht, Ht0.
    rewrite !count_app, !fetched_in_app. simpl.
    rewrite String.eqb_refl.
    rewrite !(quiet_count_fetch k evs), !(quiet_count_fetch k evs0),
      !(quiet_fetched_in k evs), !(quiet_fetched_in k evs0) by done.
    done.
Qed.



(** C7, amended: at its turn a record of the store that is skipped or not
    due leaves the whole world as it was, [lastChecked] included.  When the
    record is fetched and the fetch returns, the stored record takes
    [title], [currentPrice], [bidCount], [endTime], [imageUrl],
    [description], [views], [watchers] and [source] from the fetched object
    and [lastChecked] from the clock reading taken when the fetch returned;
    [url], [ownerId], [createdAt], [listingType] and [buyItNowPrice] keep
    their stored values; when the record is fetched before its deadline its
    status becomes the fetched one; and the records of the other channels
    are not touched.  The status stored on the deadline path is not part of
    the statement. *)
Theorem merge_overwrites_fetched_fields (now : Z) (k : string) (l : Listing)
    (w : World Ext) (m : gmap string Listing) :
  file w = Some m →
  m !! k = Some l →
  let clock := Date_now (ext w) in
  let w' := turn now w (k, l) in
  (fetches now clock l = false → w' = w) ∧
  (fetches now clock l = true →
   ∀ newData,
     outcome (getEbayListing (url l)) (fetch_start k l w) = Ok newData →
     (∃ l', record_of w' k = Some l' ∧
        title l' = s_title newData ∧
        currentPrice l' = s_currentPrice newData ∧
        bidCount l' = s_bidCount newData ∧
        endTime l' = s_endTime newData ∧
        imageUrl l' = s_imageUrl newData ∧
        description l' = s_description newData ∧
        views l' = s_views newData ∧
        watchers l' = s_watchers newData ∧
        source l' = s_source newData ∧
        lastChecked l'
          = Some (Date_now (ext (after (getEbayListing (url l))
                                   (fetch_start k l w)))) ∧
        url l' = url l ∧
        ownerId l' = ownerId l ∧
        createdAt l' = createdAt l ∧
        listingType l' = listingType l ∧
        buyItNowPrice l' = buyItNowPrice l ∧
        (getUpdateIntervalMs clock (endTime l) ≠ None →
         status l' = s_status newData)) ∧
     ∀ k', k' ≠ k → record_of w' k' = record_of w k').
Proof.
  intros Hm Hk clock w'. subst clock w'. split.
  - intros Hnot. by rewrite turn_unfold, Hnot.
  - intros Hdue newData Hok.
    destruct (turn_store now k l w m Hm Hdue) as (_ & Hstore).
    rewrite Hok in Hstore. destruct Hstore as (Hfile & _).
    unfold record_of. rewrite Hfile, Hm. split.
    + eexists. rewrite lookup_insert_eq. split; [reflexivity|].
      simpl. by repeat split.
    + intros k' Hk'. by rewrite lookup_insert_ne.
Qed.

(** C8, amended: a tick over any store ends normally and is the loop body
    run for every record of the store, one after the other.  At its turn a
    record is fetched exactly when its own due test holds at the clock
    reading of that moment, whatever happened at the turns before; a record
    that is due at the start of the tick is still due at its turn when the
    clock has not run backwards.  The turn of a record that is fetched
    starts one fetch and sends a request to eBay for its page; when the
    request fails the store is left as it was; when it returns, the record
    is stored with the assigned fields and the new [lastChecked]
    ([listingType] and [buyItNowPrice] are not assigned) and, before the
    deadline, with the fetched status.  Over the whole tick: a record
    whose fetch was started and did not return is what it was before the
    tick, and a record whose fetch returned [s] at clock reading [t] has
    the assigned fields of [s] and [lastChecked = t]. *)
Theorem fetch_failure_isolation (w : World Ext) (m : gmap string Listing) :
  file w = Some m →
  let now := Date_now (ext w) in
  outcome tick w = Ok tt ∧
  after tick w = foldl (turn now) w (map_to_list m) ∧
  (∀ k l w1 m1, file w1 = Some m1 →
     let w2 := turn now w1 (k, l) in
     if fetches now (Date_now (ext w1)) l then
       count (is_fetch_of k) (trace w2)
         = S (count (is_fetch_of k) (trace w1)) ∧
       (count (is_request_of (url l)) (trace w1)
        < count (is_request_of (url l)) (trace w2))%nat ∧
       match outcome (getEbayListing (url l)) (fetch_start k l w1) with
       | Thrown _ => file w2 = Some m1
       | Ok s =>
           let t := Date_now (ext (after (getEbayListing (url l))
                                     (fetch_start k l w1))) in
           ∃ l', file w2 = Some (<[k := l']> m1) ∧
                 refreshed_from l s t l' ∧
                 (getUpdateIntervalMs (Date_now (ext w1)) (endTime l) ≠ None →
                  status l' = s_status s)
       end
     else w2 = w1) ∧
  (∀ l clock,
     fetches now now l = true → now <= clock → fetches now clock l = true) ∧
  (∀ A a, m !! A = Some a →
     count (is_fetch_of A) (trace (after tick w))
       = S (count (is_fetch_of A) (trace w)) →
     fetched_in A (trace (after tick w)) = fetched_in A (trace w) →
     record_of (after tick w) A = Some a) ∧
  (∀ B b s t, m !! B = Some b →
     fetched_in B (trace (after tick w)) = (s, t) :: fetched_in B (trace w) →
     ∃ b', record_of (after tick w) B = Some b' ∧ refreshed_from b s t b').
Proof.
  intros Hm now.
  destruct (tick_summary w m Hm) as (Hok & evs & m' & Ht & Hf & _ & Hin).
  split; [done|]. split; [|split; [|split; [|split]]].
  - unfold after. by rewrite (tick_is_fold w m Hm).
  - intros k l w1 m1 Hm1 w2. subst w2.
    destruct (fetches now (Date_now (ext w1)) l) eqn:Hdue.
    2: { by rewrite turn_unfold, Hdue. }
    destruct (turn_store now k l w1 m1 Hm1 Hdue) as (Hcount & Hstore).
    split; [done|]. split; [by apply turn_requests|].
    destruct (outcome (getEbayListing (url l)) (fetch_start k l w1)) as [s|e].
    + destruct Hstore as [Hfile _]. eexists. split; [exact Hfile|].
      split; [apply refreshed_from_merge | done].
    + by destruct Hstore.
  - intros l clock. apply fetches_later.
  - unfold record_of. rewrite Hf, Ht.
    intros A a HA _ Hnone. rewrite fetched_in_app in Hnone.
    destruct (Hin A a HA) as (clock & _ & [[HA' _] | (_ & s & t & _ & Hd)]);
      [done|].
    rewrite Hd in Hnone. simpl in Hnone.
    apply (f_equal length) in Hnone. simpl in Hnone. lia.
  - unfold record_of. rewrite Hf, Ht.
    intros B b s t HB Hone. rewrite fetched_in_app in Hone.
    destruct (Hin B b HB) as (clock & _ & [[_ Hd] | (_ & s' & t' & HB' & Hd)]).
    + rewrite Hd in Hone. simpl in Hone.
      apply (f_equal length) in Hone. simpl in Hone. lia.
    + rewrite Hd in Hone. simpl in Hone. injection Hone as -> ->.
      eexists. split; [exact HB' | apply refreshed_from_merge].
Qed.





End TurnClaims.

(** ** The engine in the scripted worlds *)


(** The lamp is due (its interval is two minutes and it was checked three
    minutes ago) and its page shows a new bid. *)
Lemma merge_overwrites_fetched_fields_witness :
  ∃ l',
    record_of (run_turn bidding_script T0 (world0 {[ "chanB" := lamp ]})
                 ("chanB", lamp)) "chanB" = Some l' ∧
    currentPrice l' = "$27.50" ∧
    lastChecked l' = Some (T0 + 150) ∧
    listingType l' = "auction" ∧
    status l' = "active".
Proof.
  destruct (proj2 (@merge_overwrites_fetched_fields Z (scripted bidding_script)
              T0 "chanB" lamp (world0 {[ "chanB" := lamp ]})
              {[ "chanB" := lamp ]} eq_refl ltac:(by vm_compute))
              eq_refl (build_snapshot "scrape" lamp_page_bid) eq_refl)
    as ((l' & Hl' & _ & Hprice & _ & _ & _ & _ & _ & _ & _ & Hlc & _ & _ & _
         & Htype & _ & Hstatus) & _).
  exists l'. split; [exact Hl'|]. split; [exact Hprice|].
  split; [exact Hlc|]. split; [exact Htype|]. by apply Hstatus.
Defined.


(** The watch's page is unreachable and the lamp has a new bid. *)
Lemma fetch_failure_isolation_witness :
  let w' := run_tick bidding_script
              (world0 {[ "chanA" := watch; "chanB" := lamp ]}) in
  record_of w' "chanA" = Some watch ∧
  ∃ b', record_of w' "chanB" = Some b' ∧
        refreshed_from lamp (build_snapshot "scrape" lamp_page_bid)
          (T0 + 300) b'.
Proof.
  destruct (@fetch_failure_isolation Z (scripted bidding_script)
              (world0 {[ "chanA" := watch; "chanB" := lamp ]})
              {[ "chanA" := watch; "chanB" := lamp ]} eq_refl)
    as (_ & _ & _ & _ & HA & HB).
  split.
  - apply (HA "chanA" watch); by vm_compute.
  - apply (HB "chanB" lamp); by vm_compute.
Defined.


(** C5 at a failing input: the lamp is due, its page shows the stored
    price, bid count and status and more views and watchers, and every
    gateway call would be answered.  The fetch returns, the record is
    stored with the new values and the new [lastChecked], and the embed
    message is not edited.  The Refresh button pressed at the same input
    stores the same values and edits the embed. *)
Lemma fetch_without_bid_change_leaves_embed :
  let w0 := world0 {[ "chanB" := lamp ]} in
  let w' := run_tick viewed_script w0 in
  let newData := build_snapshot "scrape" lamp_page_viewed in
  fetched_in "chanB" (trace w') = [(newData, T0 + 150)] ∧
  changed (currentPrice lamp) (bidCount lamp) (status lamp) newData = false ∧
  record_of w' "chanB" = Some (merge lamp newData (T0 + 150)) ∧
  views lamp = 10 ∧ views (merge lamp newData (T0 + 150)) = 25 ∧
  sc_channel viewed_script "chanB" = Some "🔨desk-lamp" ∧
  sc_hasEmbed viewed_script = true ∧
  embeds_of "chanB" (trace w') = [] ∧
  count (is_embed_of "chanB") (trace w') = 0%nat ∧
  embeds_of "chanB" (trace (run_refresh viewed_script owner_press w0))
  = [merge lamp newData (T0 + 300)].
Proof. by vm_compute. Qed.

(** C8, as stated, fails: in one tick the watch's fetch fails and the
    lamp's fetch returns an object with a new listing type and a Buy It Now
    price; the lamp's stored record is not fully updated, it keeps the old
    listing type and no Buy It Now price. *)
Lemma isolated_fetch_keeps_listing_type :
  let w' := run_tick bidding_script
              (world0 {[ "chanA" := watch; "chanB" := lamp ]}) in
  let newData := build_snapshot "scrape" lamp_page_bid in
  count (is_fetch_of "chanA") (trace w') = 1%nat ∧
  fetched_in "chanA" (trace w') = [] ∧
  fetched_in "chanB" (trace w') = [(newData, T0 + 300)] ∧
  s_listingType newData = "auction_with_bin" ∧
  s_buyItNowPrice newData = Some "$60.00" ∧
  listingType <$> record_of w' "chanB" = Some "auction" ∧
  buyItNowPrice <$> record_of w' "chanB" = Some None.
Proof. by vm_compute. Qed.


(** C7, as stated, fails: the fetched object carries a new listing type and
    a Buy It Now price, and the stored record keeps the old ones. *)
Lemma listing_type_is_not_merged :
  let w' := run_tick bidding_script (world0 {[ "chanB" := lamp ]}) in
  let newData := build_snapshot "scrape" lamp_page_bid in
  fetched_in "chanB" (trace w') = [(newData, T0 + 150)] ∧
  s_listingType newData = "auction_with_bin" ∧
  s_buyItNowPrice newData = Some "$60.00" ∧
  listingType <$> record_of w' "chanB" = Some "auction" ∧
  buyItNowPrice <$> record_of w' "chanB" = Some None.
Proof. by vm_compute. Qed.

(** ** The deadline path *)

(** C1 at a failing input: the watch is active and its deadline has passed,
    so the loop assigns ["ended"] and calls [updateEbayListing]; the page
    still reads as active; the one fetch of the tick returns and the stored
    status is the fetched one, ["active"]. *)
Lemma deadline_tick_stores_fetched_status :
  let w1 := run_tick quiet_script (world0 {[ "chanA" := watch ]}) in
  skipped_status (status watch) = false ∧
  getUpdateIntervalMs T0 (endTime watch) = None ∧
  count (is_fetch_of "chanA") (trace w1) = 1%nat ∧
  fetched_in "chanA" (trace w1)
  = [(build_snapshot "scrape" watch_page, T0 + 150)] ∧
  status <$> record_of w1 "chanA" = Some "active".
Proof. by vm_compute. Qed.

(** C2 at the same input: the first tick fetches once and leaves the record
    active; the tick a minute later fetches it again. *)
Lemma deadline_fetch_repeats :
  let w1 := run_tick quiet_script (world0 {[ "chanA" := watch ]}) in
  let w2 := run_tick quiet_script
              (mkWorld (T0 + 60000) (file w1) (trace w1)) in
  count (is_fetch_of "chanA") (trace w1) = 1%nat ∧
  status <$> record_of w1 "chanA" = Some "active" ∧
  count (is_fetch_of "chanA") (trace w2) = 2%nat ∧
  status <$> record_of w2 "chanA" = Some "active".
Proof. by vm_compute. Qed.

(** The same assignment reaches the notification: when the page does read
    as ended, the record goes from active to ended in the store, but inside
    [updateEbayListing] the old status is already ["ended"], [justEnded] is
    false, and with the price and the bids unchanged nothing is posted and
    the channel is not renamed. *)
Lemma deadline_tick_posts_no_ended_notice :
  let w1 := run_tick ended_script (world0 {[ "chanA" := watch ]}) in
  status watch = "active" ∧
  status <$> record_of w1 "chanA" = Some "ended" ∧
  justEnded (status (set_status "ended" watch))
    (build_snapshot "scrape" watch_page_ended) = false ∧
  sent_to "chanA" (trace w1) = [] ∧
  embeds_of "chanA" (trace w1) = [].
Proof. by vm_compute. Qed.

(** * Further properties of the engine *)

(** ** The interval policy *)

(** X1: for known deadlines the policy is monotone in the remaining time: a
    listing with less time left is never polled less often, a passed
    deadline stays passed, and every interval lies between 2 and 30
    minutes. *)
Theorem interval_shrinks_towards_deadline (now1 now2 e1 e2 : Z) :
  e1 ≠ 0 → e2 ≠ 0 →
  e1 - now1 <= e2 - now2 →
  match getUpdateIntervalMs now1 (Some e1), getUpdateIntervalMs now2 (Some e2) with
  | Some i1, Some i2 => 2 * MINUTE <= i1 ∧ i1 <= i2 ∧ i2 <= 30 * MINUTE
  | None, _ => True
  | Some _, None => False
  end.
Proof.
  intros H1 H2 Hle.
  unfold getUpdateIntervalMs, truthy, or_zero, MINUTE. simpl default.
  destruct (Z.eqb_spec e1 0) as [|_]; [done|].
  destruct (Z.eqb_spec e2 0) as [|_]; [done|]. simpl negb. cbv iota.
  repeat match goal with
    | |- context [?a <=? ?b] => destruct (Z.leb_spec a b)
    | |- context [?a <? ?b] => destruct (Z.ltb_spec a b)
    end; lia.
Qed.

Lemma interval_shrinks_towards_deadline_witness :
  match getUpdateIntervalMs T0 (Some (T0 + 4 * HOUR)),
        getUpdateIntervalMs (T0 + 4 * HOUR) (Some (T0 + 10 * DAY)) with
  | Some i1, Some i2 => 2 * MINUTE <= i1 ∧ i1 <= i2 ∧ i2 <= 30 * MINUTE
  | None, _ => True
  | Some _, None => False
  end.
Proof.
  apply interval_shrinks_towards_deadline; by vm_compute.
Defined.

(** ** The events of an update *)

Lemma renames_of_app k (tr1 tr2 : list Event) :
  renames_of k (tr1 ++ tr2) = renames_of k tr1 ++ renames_of k tr2.
Proof.
  induction tr1 as [|e tr1 IH]; simpl; [done|].
  destruct e; try done. destruct (String.eqb _ _); simpl; by rewrite ?IH.
Qed.

Section Events.
Context {Ext : Type} `{ExtOps Ext}.

Lemma getEbayListing_events (u : string) (w : World Ext) :
  ∃ evs, trace (after (getEbayListing u) w) = evs ++ trace w ∧
         forallb is_source evs = true ∧
         Forall (λ e, e = EvApi u ∨ e = EvScrape u) evs.
Proof.
  unfold getEbayListing, fetchEbayListingViaAPI, scrapeEbayListing.
  unfold_engine. crunch; simpl; give_events; (split; [reflexivity|]);
    (split; [reflexivity|]); repeat constructor; by eauto.
Qed.

Lemma announce_events (k : string) (l' l0 : Listing) oP oB oS nd
    (w : World Ext) :
  ∃ evs, trace (after (announce k l' oP oB oS nd) w) = evs ++ trace w ∧
         Forall (concerns k l0) evs.
Proof.
  unfold announce. unfold_engine.
  crunch; simpl; give_events; (split; [reflexivity|]); repeat constructor.
Qed.

Lemma updateEbayListing_events (k : string) (l : Listing) (w : World Ext) :
  ∃ evs, trace (after (updateEbayListing k l) w) = evs ++ trace w ∧
         Forall (concerns k l) evs.
Proof.
  destruct (getEbayListing_events (url l) (fetch_start k l w))
    as (evs0 & Ht0 & _ & Hsrc).
  assert (Forall (concerns k l) evs0) as Hc0.
  { eapply Forall_impl; [exact Hsrc|]. by intros e [-> | ->]. }
  unfold updateEbayListing, fetch_start in *. unfold_engine. simpl in *.
  destruct (getEbayListing (url l) _) as [[newData|e] w1]; simpl in *.
  - destruct (file w1) as [m1|]; simpl.
    + set (shown := merge l newData (Date_now (ext w1))).
      set (w2 := mkWorld (ext w1) _ _).
      destruct (announce_events k shown l (currentPrice l) (bidCount l)
                  (status l) newData w2) as (evs & Ht & Hc).
      unfold_engine.
      destruct (announce k shown _ _ _ newData w2) as [[[]|e] w3]; simpl in *.
      * exists (evs ++ EvFetched k newData (Date_now (ext w1))
                     :: evs0 ++ [EvFetch k (url l)]).
        split. { rewrite Ht, Ht0. simpl; by repeat (rewrite <- app_assoc; simpl). }
        apply Forall_app. split; [done|]. constructor; [done|].
        apply Forall_app. split; [done|]. by repeat constructor.
      * exists (EvError ("Failed to update eBay listing " +:+ k) e :: evs
                  ++ EvFetched k newData (Date_now (ext w1))
                     :: evs0 ++ [EvFetch k (url l)]).
        split. { rewrite Ht, Ht0. simpl; by repeat (rewrite <- app_assoc; simpl). }
        constructor; [done|].
        apply Forall_app. split; [done|]. constructor; [done|].
        apply Forall_app. split; [done|]. by repeat constructor.
    + exists (EvError ("Failed to update eBay listing " +:+ k)
                "TypeError: cannot set properties of undefined"
              :: EvFetched k newData (Date_now (ext w1))
                 :: evs0 ++ [EvFetch k (url l)]).
      split. { rewrite Ht0. simpl. simpl; by repeat (rewrite <- app_assoc; simpl). }
      constructor; [done|]. constructor; [done|].
      apply Forall_app. split; [done|]. by repeat constructor.
  - exists (EvError ("Failed to update eBay listing " +:+ k) e
            :: evs0 ++ [EvFetch k (url l)]).
    split. { rewrite Ht0. simpl. simpl; by repeat (rewrite <- app_assoc; simpl). }
    constructor; [done|].
    apply Forall_app. split; [done|]. by repeat constructor.
Qed.

End Events.

Lemma source_events_silent (c : string) (evs : list Event) :
  forallb is_source evs = true →
  sent_to c evs = [] ∧ embeds_of c evs = [] ∧ renames_of c evs = [] ∧
  fetched_in c evs = [] ∧ count (is_fetch_of c) evs = 0%nat.
Proof.
  induction evs as [|e evs IH]; simpl; [done|].
  intros [He Hevs]%andb_prop. destruct (IH Hevs) as (? & ? & ? & ? & ?).
  by destruct e.
Qed.

Section DataSourceAlone.
Context {Ext : Type} `{ExtOps Ext}.

(** X2: with the API strategy disabled, [getEbayListing] makes no API
    request and exactly one scrape request, and its result, returned or
    thrown, is the scraper's. *)
Theorem getEbayListing_scrape_only (u : string) (w : World Ext) :
  isEbayApiEnabled (ext w) = false →
  count is_api (trace (after (getEbayListing u) w)) = count is_api (trace w) ∧
  count is_scrape (trace (after (getEbayListing u) w))
    = S (count is_scrape (trace w)) ∧
  match scrape_request u (ext w) with
  | (Ok page, x) =>
      outcome (getEbayListing u) w = Ok (build_snapshot "scrape" page) ∧
      ext (after (getEbayListing u) w) = x
  | (Thrown cause, x) =>
      outcome (getEbayListing u) w = Thrown cause ∧
      ext (after (getEbayListing u) w) = x
  end.
Proof.
  intros Hoff. unfold getEbayListing, scrapeEbayListing.
  unfold_engine. rewrite Hoff. simpl.
  by destruct (scrape_request u (ext w)) as [[page|cause] x].
Qed.

(** X3: when the fetch of [updateEbayListing] throws, the function returns
    [false] without throwing, the data file is as before, no gateway call is
    made (the outside world is as the failed fetch left it), and no channel
    gets a notification, an embed refresh or a rename. *)
Theorem failed_fetch_changes_nothing (k : string) (l : Listing)
    (w : World Ext) (cause : string) :
  outcome (getEbayListing (url l)) (fetch_start k l w) = Thrown cause →
  outcome (updateEbayListing k l) w = Ok false ∧
  file (after (updateEbayListing k l) w) = file w ∧
  ext (after (updateEbayListing k l) w)
    = ext (after (getEbayListing (url l)) (fetch_start k l w)) ∧
  ∀ c, sent_to c (trace (after (updateEbayListing k l) w)) = sent_to c (trace w) ∧
       embeds_of c (trace (after (updateEbayListing k l) w))
         = embeds_of c (trace w) ∧
       renames_of c (trace (after (updateEbayListing k l) w))
         = renames_of c (trace w) ∧
       fetched_in c (trace (after (updateEbayListing k l) w))
         = fetched_in c (trace w).
Proof.
  intros Hfail.
  destruct (getEbayListing_events (url l) (fetch_start k l w))
    as (evs0 & Ht0 & Hsrc & _).
  pose proof (getEbayListing_quiet (url l) (fetch_start k l w)) as [Hfile _].
  unfold updateEbayListing, fetch_start in *. unfold_engine. simpl in *.
  destruct (getEbayListing (url l) _) as [[newData|e] w1]; simpl in *; [done|].
  repeat (split; [done|]). intros c. rewrite Ht0.
  rewrite sent_to_app, embeds_of_app, renames_of_app, fetched_in_app.
  destruct (source_events_silent c evs0 Hsrc) as (-> & -> & -> & -> & _).
  done.
Qed.

End DataSourceAlone.

Lemma getEbayListing_scrape_only_witness :
  outcome (@getEbayListing Z (scripted quiet_script) (url lamp)) (world0 ∅)
  = Ok (build_snapshot "scrape" lamp_page).
Proof.
  exact (proj1 (proj2 (proj2 (@getEbayListing_scrape_only Z
    (scripted quiet_script) (url lamp) (world0 ∅) eq_refl)))).
Defined.

Lemma failed_fetch_changes_nothing_witness :
  outcome (@updateEbayListing Z (scripted bidding_script) "chanA" watch)
    (world0 {[ "chanA" := watch ]}) = Ok false.
Proof.
  exact (proj1 (@failed_fetch_changes_nothing Z (scripted bidding_script)
    "chanA" watch (world0 {[ "chanA" := watch ]})
    "Failed to fetch eBay listing: 503" eq_refl)).
Defined.

(** ** Invariants of the tick *)

Section TickInvariants.
Context {Ext : Type} `{ExtOps Ext}.

Lemma processListing_events (now : Z) (k : string) (l : Listing)
    (w : World Ext) :
  outcome (processListing now (k, l)) w = Ok tt ∧
  ∃ evs, trace (after (processListing now (k, l)) w) = evs ++ trace w ∧
         Forall (concerns k l) evs.
Proof.
  destruct (updateEbayListing_events k l w) as (evs1 & Ht1 & Hc1).
  destruct (updateEbayListing_events k (set_status "ended" l) w)
    as (evs2 & Ht2 & Hc2).
  unfold processListing. unfold_engine.
  destruct (skipped_status (status l)); simpl.
  { split; [done|]. by exists []. }
  destruct (getUpdateIntervalMs _ _) as [interval|].
  - destruct (interval <=? _); simpl.
    + destruct (updateEbayListing k l w) as [[b|e] w']; simpl in *.
      * split; [done|]. by exists evs1.
      * split; [done|]. exists (EvError ("Error processing listing " +:+ k) e :: evs1).
        rewrite Ht1. split; [done|]. by constructor.
    + split; [done|]. by exists [].
  - destruct (updateEbayListing k (set_status "ended" l) w) as [[b|e] w'];
      simpl in *.
    + split; [done|]. by exists evs2.
    + split; [done|]. exists (EvError ("Error processing listing " +:+ k) e :: evs2).
      rewrite Ht2. split; [done|]. by constructor.
Qed.

Lemma scan_events (now : Z) (entries : list (string * Listing))
    (w : World Ext) :
  outcome (scan now entries) w = Ok tt ∧
  ∃ evs, trace (after (scan now entries) w) = evs ++ trace w ∧
         Forall (λ e, ∃ k l, (k, l) ∈ entries ∧ concerns k l e) evs.
Proof.
  revert w. induction entries as [|[k l] rest IH]; intros w.
  { split; [done|]. by exists []. }
  destruct (processListing_events now k l w) as (Hok & evs1 & Ht1 & Hc1).
  unfold after, outcome in *. rewrite scan_cons.
  destruct (processListing now (k, l) w) as [[[]|e] w1]; simpl in *; [|done].
  destruct (IH w1) as (Hok2 & evs2 & Ht2 & Hc2).
  split; [done|]. exists (evs2 ++ evs1).
  split. { rewrite Ht2, Ht1. by rewrite app_assoc. }
  apply Forall_app. split.
  - eapply Forall_impl; [exact Hc2|]. intros e (k' & l' & Hin & Hc).
    exists k', l'. split; [by apply elem_of_cons; right | done].
  - eapply Forall_impl; [exact Hc1|]. intros e Hc.
    exists k, l. split; [by apply elem_of_cons; left | done].
Qed.

Lemma tick_without_listings (w : World Ext) :
  file w = None → tick w = (Ok tt, w).
Proof. intros Hf. unfold tick. unfold_engine. by rewrite Hf. Qed.

(** X4: a tick stays within the store.  It never throws, and every call it
    makes belongs to a tracked record: every eBay request is for the URL of
    a record of the store, and every fetch, notification, embed refresh and
    rename is for the channel of one. *)
Theorem tick_stays_within_store (w : World Ext) :
  outcome tick w = Ok tt ∧
  ∃ evs, trace (after tick w) = evs ++ trace w ∧
         Forall (λ e, match e with
                      | EvError _ _ => True
                      | _ => ∃ k l, record_of w k = Some l ∧ concerns k l e
                      end) evs.
Proof.
  destruct (file w) as [m|] eqn:Hm.
  2: { unfold after, outcome. rewrite tick_without_listings by done.
       split; [done|]. by exists []. }
  destruct (scan_events (Date_now (ext w)) (map_to_list m) w)
    as (Hok & evs & Ht & Hc).
  unfold tick. unfold_engine. rewrite Hm. cbn beta iota.
  destruct (scan _ _ w) as [[[]|e] w']; simpl in *; [|done].
  split; [done|]. exists evs. split; [done|].
  eapply Forall_impl; [exact Hc|]. intros e (k & l & Hin & Hcon).
  apply elem_of_map_to_list in Hin.
  destruct e; try done; exists k, l; unfold record_of; by rewrite Hm.
Qed.

End TickInvariants.

Section TickInvariants2.
Context {Ext : Type} `{ExtOps Ext}.

Lemma tick_keeps_identity (w : World Ext) (k : string) :
  match record_of w k with
  | Some l =>
      ∃ l', record_of (after tick w) k = Some l' ∧
            url l' = url l ∧ ownerId l' = ownerId l ∧
            createdAt l' = createdAt l ∧ listingType l' = listingType l ∧
            buyItNowPrice l' = buyItNowPrice l
  | None => record_of (after tick w) k = None
  end.
Proof.
  unfold record_of. destruct (file w) as [m|] eqn:Hm.
  2: { unfold after. rewrite tick_without_listings by done. simpl.
       by rewrite Hm. }
  destruct (tick_summary w m Hm) as (_ & evs & m' & _ & Hf & Hout & Hin).
  rewrite Hf. destruct (m !! k) as [l|] eqn:Hk.
  - destruct (Hin k l Hk) as (clock & _ & [[-> _] | (_ & s & t & -> & _)]);
      eexists; (split; [reflexivity|]); done.
  - by destruct (Hout k Hk).
Qed.

(** X5: however many ticks run, no record is added to the store or removed
    from it, and every record keeps its [url], [ownerId], [createdAt],
    [listingType] and [buyItNowPrice]. *)
Theorem ticks_keep_identity (w w' : World Ext) (k : string) :
  ticked w w' →
  match record_of w k with
  | Some l =>
      ∃ l', record_of w' k = Some l' ∧
            url l' = url l ∧ ownerId l' = ownerId l ∧
            createdAt l' = createdAt l ∧ listingType l' = listingType l ∧
            buyItNowPrice l' = buyItNowPrice l
  | None => record_of w' k = None
  end.
Proof.
  induction 1 as [w | w w1 x _ IH].
  { destruct (record_of w k) as [l|]; [by exists l | done]. }
  pose proof (tick_keeps_identity (mkWorld x (file w1) (trace w1)) k) as Hstep.
  change (record_of (mkWorld x (file w1) (trace w1)) k)
    with (record_of w1 k) in Hstep.
  destruct (record_of w k) as [l|].
  - destruct IH as (l1 & Hl1 & ? & ? & ? & ? & ?). rewrite Hl1 in Hstep.
    destruct Hstep as (l2 & Hl2 & ? & ? & ? & ? & ?).
    exists l2. split; [done|]. repeat split; congruence.
  - by rewrite IH in Hstep.
Qed.

(** X6: in one tick a channel gets at most one fetch, and only if it is
    tracked; a fetch returns at most once, and only if one was started. *)
Theorem tick_fetches_each_record_at_most_once (w : World Ext) (k : string) :
  let started tr := count (is_fetch_of k) tr in
  (started (trace (after tick w)) = started (trace w) ∧
   fetched_in k (trace (after tick w)) = fetched_in k (trace w)) ∨
  (is_Some (record_of w k) ∧
   started (trace (after tick w)) = S (started (trace w)) ∧
   (fetched_in k (trace (after tick w)) = fetched_in k (trace w) ∨
    ∃ s t, fetched_in k (trace (after tick w))
           = (s, t) :: fetched_in k (trace w))).
Proof.
  simpl. unfold record_of. destruct (file w) as [m|] eqn:Hm.
  2: { left. unfold after. by rewrite tick_without_listings. }
  destruct (tick_summary w m Hm) as (_ & evs & m' & Ht & _ & Hout & Hin).
  rewrite Ht, count_app, fetched_in_app.
  destruct (m !! k) as [l|] eqn:Hk.
  - destruct (Hin k l Hk) as (clock & Hc & Hd). rewrite Hc.
    destruct Hd as [[_ ->] | (-> & s & t & _ & ->)].
    + destruct (fetches _ _ _); [right | left]; by eauto.
    + right. split; [by eauto|]. split; [done|]. right. by exists s, t.
  - destruct (Hout k Hk) as (_ & -> & ->). by left.
Qed.


End TickInvariants2.

(** ** The time left shown in the embed *)

Lemma pretty_N_char_digit (x : N) : is_digit (pretty_N_char x).
Proof.
  unfold is_digit, pretty_N_char.
  repeat case_match; repeat constructor.
Qed.

Lemma pretty_N_go_digit (x : N) (s : string) :
  (0 < x)%N ∨ starts_with_digit s → starts_with_digit (pretty_N_go x s).
Proof.
  revert s. induction (N.lt_wf_0 x) as [x _ IH]; intros s Hx.
  assert (x = 0 ∨ 0 < x)%N as [-> | Hpos] by lia.
  - rewrite pretty_N_go_0. destruct Hx as [?|?]; [lia | done].
  - rewrite pretty_N_go_step by done. apply IH.
    + by apply N.div_lt.
    + right. simpl. apply pretty_N_char_digit.
Qed.

Lemma String_of_number_digit (n : Z) :
  0 <= n → starts_with_digit (String_of_number n).
Proof.
  unfold String_of_number, pretty, pretty_Z. destruct n as [|p|p]; [| |lia].
  - intros _. simpl. unfold is_digit. repeat constructor.
  - intros _. unfold pretty, pretty_positive, pretty, pretty_N.
    case_decide; [done|]. apply pretty_N_go_digit. left. lia.
Qed.

Lemma String_of_number_nonempty (n : Z) : String_of_number n ≠ "".
Proof.
  destruct (Z.le_gt_cases 0 n) as [Hn | Hn].
  - pose proof (String_of_number_digit n Hn) as Hd.
    by destruct (String_of_number n).
  - unfold String_of_number, pretty, pretty_Z. by destruct n.
Qed.

Lemma timeLeft_fields_bounds (diff : Z) :
  0 < diff →
  0 <= timeLeft_days diff ∧
  0 <= timeLeft_hours diff < 24 ∧
  0 <= timeLeft_minutes diff < 60 ∧
  0 <= diff - (timeLeft_days diff * DAY + timeLeft_hours diff * HOUR
               + timeLeft_minutes diff * MINUTE) < MINUTE.
Proof.
  intros Hd. unfold timeLeft_days, timeLeft_hours, timeLeft_minutes.
  rewrite !Z.rem_mod_nonneg by lia.
  unfold DAY, HOUR, MINUTE.
  change (1000 * 60 * 60 * 24) with 86400000.
  change (24 * 60 * 60 * 1000) with 86400000.
  change (1000 * 60 * 60) with 3600000.
  change (60 * 60 * 1000) with 3600000.
  change (1000 * 60) with 60000. change (60 * 1000) with 60000.
  Z.div_mod_to_equations. lia.
Qed.

Lemma timeLeft_parts_digit (d h m : Z) :
  0 <= d → 0 <= h → 0 <= m →
  starts_with_digit (String.concat " " (timeLeft_parts d h m)).
Proof.
  intros Hd Hh Hm. unfold timeLeft_parts.
  pose proof (String_of_number_digit d Hd) as Dd.
  pose proof (String_of_number_digit h Hh) as Dh.
  pose proof (String_of_number_digit m Hm) as Dm.
  destruct (0 <? d), (0 <? h), (0 <? m); simpl;
    destruct (String_of_number d), (String_of_number h),
             (String_of_number m); done.
Qed.

Lemma digit_start_not_word (s : string) :
  starts_with_digit s → s ≠ "Unknown" ∧ s ≠ "Ended" ∧ s ≠ "".
Proof.
  destruct s as [|c s]; [done|]. unfold starts_with_digit, is_digit.
  intros Hs. split; [|split; [|done]]; intros [= -> _];
    repeat (apply elem_of_cons in Hs as [Hs|Hs]; [discriminate|]);
    by apply elem_of_nil in Hs.
Qed.

Lemma formatTimeLeft_shape (now : Z) (endTime : option Z) :
  (truthy endTime = false ∧ formatTimeLeft now endTime = "Unknown") ∨
  (truthy endTime = true ∧ getUpdateIntervalMs now endTime = None ∧
   formatTimeLeft now endTime = "Ended") ∨
  (truthy endTime = true ∧ getUpdateIntervalMs now endTime ≠ None ∧
   starts_with_digit (formatTimeLeft now endTime)).
Proof.
  unfold formatTimeLeft, getUpdateIntervalMs.
  destruct (truthy endTime); simpl; [|by left]. right.
  destruct (Z.leb_spec (or_zero endTime - now) 0) as [Hle | Hgt]; [by left|].
  right. split; [done|]. split; [by repeat case_match|].
  destruct (timeLeft_fields_bounds _ Hgt) as (Hd & [Hh _] & [Hm _] & _).
  by apply timeLeft_parts_digit.
Qed.

(** X8: the time left shown in the embed agrees with the interval policy at
    the same clock reading: it reads "Unknown" exactly for the deadlines the
    policy treats as unknown, "Ended" exactly for those the policy answers
    with [null], and otherwise a text that starts with a digit. *)
Theorem formatTimeLeft_agrees_with_policy (now : Z) (endTime : option Z) :
  (formatTimeLeft now endTime = "Unknown" ↔ truthy endTime = false) ∧
  (formatTimeLeft now endTime = "Ended" ↔
   getUpdateIntervalMs now endTime = None) ∧
  (truthy endTime = true → getUpdateIntervalMs now endTime ≠ None →
   starts_with_digit (formatTimeLeft now endTime)).
Proof.
  destruct (formatTimeLeft_shape now endTime)
    as [(Ht & Hf) | [(Ht & Hp & Hf) | (Ht & Hp & Hf)]].
  - rewrite Hf, Ht. unfold getUpdateIntervalMs. rewrite Ht. by repeat split.
  - rewrite Hf, Ht, Hp. by repeat split.
  - destruct (digit_start_not_word _ Hf) as (Hu & He & _).
    rewrite Ht. by repeat split.
Qed.

(** X9: for a deadline in the future the counts shown are the remaining
    time rounded down to the minute: hours stay below 24, minutes below 60,
    and days, hours and minutes together fall short of the remaining time by
    less than a minute. *)
Theorem formatTimeLeft_rounds_down_to_minute (now e : Z) :
  e ≠ 0 → 0 < e - now →
  let d := timeLeft_days (e - now) in
  let h := timeLeft_hours (e - now) in
  let m := timeLeft_minutes (e - now) in
  formatTimeLeft now (Some e) = String.concat " " (timeLeft_parts d h m) ∧
  timeLeft_parts d h m ≠ [] ∧
  0 <= d ∧ 0 <= h < 24 ∧ 0 <= m < 60 ∧
  0 <= (e - now) - (d * DAY + h * HOUR + m * MINUTE) < MINUTE.
Proof.
  intros He Hpos. simpl. split; [|split].
  - unfold formatTimeLeft, truthy, or_zero. simpl.
    destruct (Z.eqb_spec e 0); [done|]. simpl.
    by destruct (Z.leb_spec (e - now) 0); [lia|].
  - unfold timeLeft_parts.
    by destruct (0 <? _), (0 <? _), (0 <? _).
  - by apply timeLeft_fields_bounds.
Qed.

Lemma formatTimeLeft_rounds_down_to_minute_witness :
  formatTimeLeft T0 (Some (T0 + 2 * DAY + 5 * HOUR + 90 * SECOND)) = "2d 5h 1m".
Proof.
  rewrite (proj1 (formatTimeLeft_rounds_down_to_minute T0
    (T0 + 2 * DAY + 5 * HOUR + 90 * SECOND) ltac:(by vm_compute)
    ltac:(by vm_compute))).
  by vm_compute.
Defined.

(** ** The embed and its buttons *)

(** X10: the action row always starts with Refresh and Open on eBay and has
    at most four buttons (Discord allows five); it offers Close Tracking
    exactly to active listings, Mark Sold exactly to active buy-it-now
    listings and Mark Shipped exactly to ended or sold listings.  Hence a
    listing that can still be closed is one the update loop polls, and one
    that can be marked shipped is one the loop skips. *)
Theorem buttons_follow_lifecycle (l : Listing) :
  let row := buildEbayListingButtons l in
  (∃ more, row = RefreshButton :: OpenOnEbayButton (url l) :: more) ∧
  (length row <= 4)%nat ∧
  (CloseTrackingButton ∈ row ↔ status l = "active") ∧
  (MarkSoldButton ∈ row ↔
   status l = "active" ∧ listingType l = "buy_it_now") ∧
  (MarkShippedButton ∈ row ↔ status l = "ended" ∨ status l = "sold") ∧
  (CloseTrackingButton ∈ row → skipped_status (status l) = false) ∧
  (MarkShippedButton ∈ row → skipped_status (status l) = true).
Proof.
  unfold buildEbayListingButtons, skipped_status. simpl.
  destruct (String.eqb_spec (status l) "active") as [Ha|Ha];
    destruct (String.eqb_spec (status l) "ended") as [He|He];
    destruct (String.eqb_spec (status l) "sold") as [Hs|Hs];
    destruct (String.eqb_spec (listingType l) "buy_it_now") as [Hb|Hb];
    try congruence; simpl;
    rewrite ?Ha, ?He, ?Hs; simpl;
    (split; [by eauto|]); (split; [lia|]);
    rewrite ?elem_of_cons, ?elem_of_nil;
    repeat split; intros; try done;
    intuition (try discriminate; try congruence; auto).
Qed.

Lemma or_NA_nonempty (s : string) : or_NA s ≠ "".
Proof. unfold or_NA. by destruct (String.eqb_spec s ""). Qed.

Lemma formatTimeLeft_nonempty (now : Z) (endTime : option Z) :
  formatTimeLeft now endTime ≠ "".
Proof.
  destruct (formatTimeLeft_shape now endTime)
    as [(_ & ->) | [(_ & _ & ->) | (_ & _ & Hd)]]; [done..|].
  by destruct (digit_start_not_word _ Hd) as (_ & _ & ?).
Qed.

Lemma embed_fields_nonempty (now : Z) (l : Listing) :
  Forall (λ f, f.1 ≠ "" ∧ f.2 ≠ "") (embed_fields now l).
Proof.
  unfold embed_fields.
  destruct (String.eqb _ "buy_it_now"); repeat constructor; simpl;
    auto using or_NA_nonempty, String_of_number_nonempty,
      formatTimeLeft_nonempty.
Qed.

(** X11: [buildEbayListingEmbed] returns an embed exactly when the builder
    accepts every value it is given, in particular the listing's own title,
    which is set before the status tag is put in front of it; when the
    builder refuses that title the function throws its error, whatever the
    status.  The fields given to the builder are three for a buy-it-now
    listing and five otherwise, and none has an empty name or value.  An
    embed that is returned has those fields, a description and an image
    only when they are not empty, and the grey colour and the status tag in
    its title exactly when the status is ended, sold or shipped. *)
Theorem embed_is_well_formed `{EmbedBuilderOps}
    (toLocaleString : option Z → string) (now : Z) (l : Listing) :
  let r := buildEbayListingEmbed toLocaleString now l in
  (∀ err, setTitle_check (title l) = Thrown err → r = Thrown err) ∧
  (is_Ok r
   = is_Ok (setTitle_check (title l))
     && is_Ok (setColor_check (embed_color l))
     && (String.eqb (embed_description l) ""
         || is_Ok (setDescription_check (embed_description l)))
     && is_Ok (addFields_check (embed_fields now l))
     && is_Ok (setFooter_check (embed_footer toLocaleString l))
     && (negb (truthy_string (imageUrl l))
         || is_Ok (setImage_check (default "" (imageUrl l))))
     && match status_tag l with
        | Some tag => is_Ok (setTitle_check (tag +:+ title l))
        | None => true
        end) ∧
  (length (embed_fields now l)
   = if String.eqb (listingType l) "buy_it_now" then 3%nat else 5%nat) ∧
  Forall (λ f, f.1 ≠ "" ∧ f.2 ≠ "") (embed_fields now l) ∧
  (∀ e, r = Ok e →
     em_fields e = embed_fields now l ∧
     em_description e ≠ Some "" ∧
     em_image e ≠ Some "" ∧
     ((status l = "ended" ∧ em_color e = 0x808080 ∧
       em_title e = "[ENDED] " +:+ title l) ∨
      (status l = "sold" ∧ em_color e = 0x808080 ∧
       em_title e = "[SOLD] " +:+ title l) ∨
      (status l = "shipped" ∧ em_color e = 0x808080 ∧
       em_title e = "[SHIPPED] " +:+ title l) ∨
      (status l ≠ "ended" ∧ status l ≠ "sold" ∧ status l ≠ "shipped" ∧
       em_color e = 0x0064d2 ∧ em_title e = title l))).
Proof.
  simpl. split; [|split; [|split; [|split; [|]]]].
  - intros err Herr. unfold buildEbayListingEmbed. by rewrite Herr.
  - unfold buildEbayListingEmbed, checked.
    destruct (setTitle_check (title l)); [|done].
    destruct (setColor_check _); [|done].
    destruct (String.eqb (embed_description l) ""); simpl;
      [|destruct (setDescription_check _); [|done]];
      (destruct (addFields_check _); [|done]);
      (destruct (setFooter_check _); [|done]);
      (destruct (truthy_string (imageUrl l)); simpl;
         [destruct (setImage_check _); [|done]|]);
      destruct (status_tag l); simpl; try done;
      by destruct (setTitle_check _).
  - unfold embed_fields. by destruct (String.eqb _ "buy_it_now").
  - apply embed_fields_nonempty.
  - intros e. unfold buildEbayListingEmbed, checked.
    destruct (setTitle_check (title l)); [|done].
    destruct (setColor_check _); [|done].
    destruct (if String.eqb (embed_description l) "" then _ else _); [|done].
    destruct (addFields_check _); [|done].
    destruct (setFooter_check _); [|done].
    destruct (if truthy_string (imageUrl l) then _ else _); [|done].
    destruct (match status_tag l with Some _ => _ | None => _ end); [|done].
    intros [= <-]. simpl. split; [done|]. split; [|split].
    + destruct (String.eqb_spec (embed_description l) ""); congruence.
    + unfold truthy_string. destruct (imageUrl l) as [v|]; [|done].
      destruct (String.eqb_spec v ""); simpl; congruence.
    + unfold status_tag, embed_color.
      destruct (String.eqb_spec (status l) "ended") as [He|He];
        destruct (String.eqb_spec (status l) "sold") as [Hs|Hs];
        destruct (String.eqb_spec (status l) "shipped") as [Hp|Hp];
        try congruence; simpl; by auto 10.
Qed.

(** ** Status changes made by hand *)

Section ManualTransitions.
Context {Ext : Type} `{ExtOps Ext} `{InteractionOps Ext}.
Variable ebayArchivedCategoryId : string.
Variable slice90 : string → string.

Lemma ticked_skips (w w' : World Ext) (k : string) (l : Listing) :
  ticked w w' →
  record_of w k = Some l →
  skipped_status (status l) = true →
  record_of w' k = Some l ∧
  count (is_fetch_of k) (trace w') = count (is_fetch_of k) (trace w) ∧
  fetched_in k (trace w') = fetched_in k (trace w).
Proof.
  intros Hticked Hk Hs.
  induction Hticked as [w | w w1 x _ IH]; [done|].
  destruct (IH Hk) as (Hk1 & Hc1 & Hd1).
  destruct (tick_skips (mkWorld x (file w1) (trace w1)) k l Hk1 Hs)
    as (Hk2 & Hc2 & Hd2).
  simpl in *. by rewrite Hc2, Hd2.
Qed.




(** X13: a press on one of the three buttons in a channel that is not
    tracked, or by a user who is neither the owner nor staff, changes
    nothing: the data file and the trace are as before, and the handler
    either gives the refusal as its answer or fails in giving it. *)
Theorem refused_press_changes_nothing (t : Transition) (i : Interaction)
    (w : World Ext) :
  let h := handler_of ebayArchivedCategoryId slice90 t i in
  (record_of w (i_channelId i) = None →
   file (after h w) = file w ∧ trace (after h w) = trace w ∧
   (outcome h w = Ok NotTrackingChannel ∨ ∃ e, outcome h w = Thrown e)) ∧
  (∀ l, record_of w (i_channelId i) = Some l →
   i_userId i ≠ ownerId l → i_isStaff i = false →
   file (after h w) = file w ∧ trace (after h w) = trace w ∧
   (outcome h w = Ok NotAllowed ∨ ∃ e, outcome h w = Thrown e)).
Proof.
  simpl. split.
  - intros Hnone.
    assert (tracked (file w) i = None) as Ht by done.
    destruct t; simpl; unfold ebay_sold, ebay_shipped, ebay_close;
      unfold_engine; simpl; rewrite Ht; crunch; by eauto.
  - intros l Hl Hwho Hstaff.
    assert (tracked (file w) i = Some l) as Ht by done.
    assert (not_allowed i l = true) as Hno.
    { unfold not_allowed. rewrite Hstaff.
      by destruct (String.eqb_spec (i_userId i) (ownerId l)). }
    destruct t; simpl; unfold ebay_sold, ebay_shipped, ebay_close;
      unfold_engine; simpl; rewrite Ht, Hno; crunch; by eauto.
Qed.

(** X14: the Refresh button, which any user of the channel may press, stores
    the same merge as the automatic update.  Once the fetch has returned,
    the record of the channel is the merge of the fetched object, with the
    fetched status in place of the stored one (also over sold, shipped and
    closed), whatever the gateway calls that follow do, and no other record
    changes.  When the fetch throws, the data file is as before and the
    answer, if it can be given, reports the failure. *)
Theorem manual_refresh_stores_the_merge (i : Interaction) (w : World Ext)
    (l : Listing) (x0 : Ext) :
  record_of w (i_channelId i) = Some l →
  interaction_deferReply (ext w) = (Ok tt, x0) →
  let w0 := mkWorld x0 (file w) (trace w) in
  match outcome (getEbayListing (url l)) w0 with
  | Ok newData =>
      let t := Date_now (ext (after (getEbayListing (url l)) w0)) in
      record_of (after (ebay_refresh i) w) (i_channelId i)
        = Some (merge l newData t) ∧
      status (merge l newData t) = s_status newData ∧
      (∀ k, k ≠ i_channelId i →
         record_of (after (ebay_refresh i) w) k = record_of w k)
  | Thrown e =>
      file (after (ebay_refresh i) w) = file w ∧
      (outcome (ebay_refresh i) w = Ok (RefreshFailed e) ∨
       ∃ e', outcome (ebay_refresh i) w = Thrown e')
  end.
Proof.
  intros Hl Hdefer. simpl.
  pose proof (getEbayListing_quiet (url l) (mkWorld x0 (file w) (trace w)))
    as [Hfile _].
  unfold record_of in *. destruct (file w) as [m|] eqn:Hm; [|done].
  unfold ebay_refresh, tracked, save_listing. unfold_engine.
  rewrite Hm, Hl, Hdefer. simpl in *. rewrite ?Hm.
  destruct (getEbayListing (url l) _) as [[newData|e] w1]; simpl in *.
  - assert (∀ r : Outcome Reply * World Ext,
              file r.2 = Some (<[i_channelId i :=
                          merge l newData (Date_now (ext w1))]> m) →
              match file r.2 with
              | Some listings => listings !! i_channelId i
              | None => None
              end = Some (merge l newData (Date_now (ext w1)))
              ∧ s_status newData = s_status newData
              ∧ (∀ k, k ≠ i_channelId i →
                   match file r.2 with
                   | Some listings => listings !! k
                   | None => None
                   end = m !! k)) as Hgoal.
    { intros r ->. rewrite lookup_insert_eq. split; [done|]. split; [done|].
      intros k Hk. by rewrite lookup_insert_ne. }
    apply Hgoal. crunch; done.
  - rewrite Hfile. crunch; by eauto.
Qed.

End ManualTransitions.

(** ** Collected images *)

Lemma Set_add_elem (s : list string) (x y : string) :
  y ∈ Set_add s x ↔ y ∈ s ∨ y = x.
Proof.
  unfold Set_add. case_bool_decide as Hx.
  - split; [by left|]. by intros [? | ->].
  - rewrite elem_of_app, list_elem_of_singleton. done.
Qed.

Lemma Set_add_NoDup (s : list string) (x : string) :
  NoDup s → NoDup (Set_add s x).
Proof.
  intros Hs. unfold Set_add. case_bool_decide as Hx; [done|].
  apply NoDup_app. split; [done|]. split; [|apply NoDup_singleton].
  intros y Hy ->%list_elem_of_singleton. done.
Qed.

Lemma Set_add_all_elem (xs s : list string) (y : string) :
  y ∈ foldl Set_add s xs ↔ y ∈ s ∨ y ∈ xs.
Proof.
  revert s. induction xs as [|x xs IH]; intros s; simpl.
  - rewrite elem_of_nil. tauto.
  - rewrite IH, Set_add_elem, elem_of_cons. tauto.
Qed.

Lemma Set_add_all_NoDup (xs s : list string) :
  NoDup s → NoDup (foldl Set_add s xs).
Proof.
  revert s. induction xs as [|x xs IH]; intros s Hs; simpl; [done|].
  by apply IH, Set_add_NoDup.
Qed.

Lemma Set_add_all_prefix (xs s : list string) :
  s `prefix_of` foldl Set_add s xs.
Proof.
  revert s. induction xs as [|x xs IH]; intros s; simpl; [done|].
  etrans; [|apply IH]. unfold Set_add. case_bool_decide; [done|].
  by apply prefix_app_r.
Qed.

Lemma Set_add_all_known (xs s : list string) :
  (∀ x, x ∈ xs → x ∈ s) → foldl Set_add s xs = s.
Proof.
  revert s. induction xs as [|x xs IH]; intros s Hin; simpl; [done|].
  assert (Set_add s x = s) as ->.
  { unfold Set_add. rewrite bool_decide_eq_true_2; [done|].
    apply Hin. by left. }
  apply IH. intros y Hy. apply Hin. by right.
Qed.

Lemma Set_add_all_fresh (xs s : list string) :
  NoDup (s ++ xs) → foldl Set_add s xs = s ++ xs.
Proof.
  revert s. induction xs as [|x xs IH]; intros s Hnd; simpl.
  - by rewrite app_nil_r.
  - assert (Set_add s x = s ++ [x]) as ->.
    { unfold Set_add. rewrite bool_decide_eq_false_2; [done|].
      apply NoDup_app in Hnd as (_ & Hdisj & _). intros Hx.
      apply (Hdisj x Hx). by left. }
    rewrite IH; [by rewrite <- app_assoc|]. by rewrite <- app_assoc.
Qed.

Lemma new_Set_NoDup (xs : list string) : NoDup (new_Set xs).
Proof. apply Set_add_all_NoDup, NoDup_nil_2. Qed.

Lemma new_Set_elem (xs : list string) (y : string) : y ∈ new_Set xs ↔ y ∈ xs.
Proof. unfold new_Set. rewrite Set_add_all_elem, elem_of_nil. tauto. Qed.

Lemma new_Set_NoDup_id (xs : list string) : NoDup xs → new_Set xs = xs.
Proof. intros Hnd. by apply (Set_add_all_fresh xs []). Qed.

Lemma collect_images_Some (bot : bool) (ticket : option Ticket)
    (atts : list Attachment) (t' : Ticket) :
  collect_images bot ticket atts = Some t' →
  ∃ t, ticket = Some t ∧ bot = false ∧
       (t_status t = "open" ∨ t_status t = "images_done") ∧
       t_images t'
       = foldl Set_add (new_Set (t_images t))
           (map att_url (List.filter isImageAttachment atts)) ∧
       map att_url (List.filter isImageAttachment atts) ≠ [] ∧
       t_ownerId t' = t_ownerId t ∧ t_itemName t' = t_itemName t ∧
       t_itemDesc t' = t_itemDesc t ∧ t_status t' = t_status t ∧
       t_createdAt t' = t_createdAt t.
Proof.
  unfold collect_images. destruct bot; [done|].
  destruct ticket as [t|]; [|done]. simpl.
  destruct (String.eqb_spec (t_status t) "open") as [Ho|Ho];
    destruct (String.eqb_spec (t_status t) "images_done") as [Hd|Hd];
    simpl; try done;
    (destruct (map att_url (List.filter isImageAttachment atts)) as [|u us] eqn:Hnew;
     [done|]); simpl; intros [= <-]; exists t; simpl;
    repeat split; auto.
Qed.

(** X15: when the handler saves a ticket, its image list has no duplicates
    and holds exactly the images it had and the URLs of the image
    attachments of the message; the images that were there keep their order
    at the front of the list; and nothing else in the ticket changes. *)
Theorem collected_images_form_a_set (ticket : option Ticket)
    (atts : list Attachment) (t' : Ticket) :
  collect_images false ticket atts = Some t' →
  ∃ t, ticket = Some t ∧
    NoDup (t_images t') ∧
    (∀ u, u ∈ t_images t' ↔
          u ∈ t_images t ∨
          ∃ a, a ∈ atts ∧ isImageAttachment a = true ∧ att_url a = u) ∧
    (NoDup (t_images t) → t_images t `prefix_of` t_images t') ∧
    t_ownerId t' = t_ownerId t ∧ t_itemName t' = t_itemName t ∧
    t_itemDesc t' = t_itemDesc t ∧ t_status t' = t_status t ∧
    t_createdAt t' = t_createdAt t.
Proof.
  intros (t & -> & _ & _ & Himg & _ & Hrest)%collect_images_Some.
  exists t. split; [done|]. rewrite Himg. split; [|split; [|split]].
  - apply Set_add_all_NoDup, new_Set_NoDup.
  - intros u. rewrite Set_add_all_elem, new_Set_elem, list_elem_of_fmap.
    split; intros [?|Hu]; auto; right.
    + destruct Hu as (a & -> & Ha). apply list_elem_of_In in Ha.
      apply filter_In in Ha as [Ha ?]. exists a.
      by rewrite list_elem_of_In.
    + destruct Hu as (a & Ha & Himage & <-). exists a. split; [done|].
      apply list_elem_of_In, filter_In. by rewrite <- list_elem_of_In.
  - intros Hnd. rewrite (new_Set_NoDup_id _ Hnd). apply Set_add_all_prefix.
  - done.
Qed.

(** X16: collecting is idempotent: when the same attachments are handled a
    second time, the ticket saved is the one saved the first time. *)
Theorem collect_images_idempotent (ticket : option Ticket)
    (atts : list Attachment) (t' : Ticket) :
  collect_images false ticket atts = Some t' →
  collect_images false (Some t') atts = Some t'.
Proof.
  intros (t & -> & _ & Hst & Himg & Hne & Ho & Hn & Hd & Hs & Hc)%collect_images_Some.
  unfold collect_images. rewrite Hs.
  assert (existsb (String.eqb (t_status t)) ["open"; "images_done"] = true) as ->.
  { simpl. destruct Hst as [-> | ->]; by rewrite ?String.eqb_refl, ?orb_true_r. }
  cbn [negb]. cbv iota. set (new := map att_url (List.filter isImageAttachment atts)) in *.
  destruct new as [|u us] eqn:Hnew; [done|]. simpl length. simpl Nat.eqb.
  cbv iota. f_equal.
  assert (foldl Set_add (new_Set (t_images t')) (u :: us) = t_images t') as Hfix.
  { rewrite new_Set_NoDup_id.
    - apply Set_add_all_known. intros x Hx. rewrite Himg.
      apply Set_add_all_elem. by right.
    - rewrite Himg. apply Set_add_all_NoDup, new_Set_NoDup. }
  destruct t'; simpl in *. by rewrite Hfix, Hs.
Qed.

(** X17: a message from a bot, in a channel without a ticket, in a ticket
    that is neither open nor done uploading, or without image attachments
    leaves the store as it is; and a message never changes the ticket of
    another channel. *)
Theorem MessageCreate_touches_one_open_ticket
    (listings : gmap string Ticket) (channelId : string) (bot : bool)
    (atts : list Attachment) :
  (bot = true ∨ listings !! channelId = None ∨
   (∃ t, listings !! channelId = Some t ∧
         t_status t ≠ "open" ∧ t_status t ≠ "images_done") ∨
   Forall (λ a, isImageAttachment a = false) atts →
   MessageCreate listings channelId bot atts = listings) ∧
  (∀ k, k ≠ channelId →
     MessageCreate listings channelId bot atts !! k = listings !! k).
Proof.
  unfold MessageCreate. split.
  - intros Hcase.
    destruct (collect_images bot (listings !! channelId) atts) as [t'|] eqn:Hc;
      [|done].
    apply collect_images_Some in Hc
      as (t & Ht & Hbot & Hst & _ & Hne & _).
    destruct Hcase as [-> | [Hnone | [(t0 & Ht0 & Ho & Hd) | Hall]]].
    + done.
    + congruence.
    + rewrite Ht0 in Ht. injection Ht as ->. by destruct Hst.
    + exfalso. apply Hne. clear -Hall.
      induction Hall as [|a atts Ha _ IH]; [done|].
      cbn [List.filter]. by rewrite Ha.
  - intros k Hk.
    destruct (collect_images _ _ _); [by rewrite lookup_insert_ne | done].
Qed.

(** ** Credentials and the token cache *)

Lemma nonempty_true (s : string) : s ≠ "" → nonempty s = true.
Proof. unfold nonempty. by destruct (String.eqb_spec s ""). Qed.

(** X18: credentials entered with a non-empty app id and cert id are saved
    and take precedence over the configuration file; the connection test
    that follows sends these credentials and no cached token of earlier
    ones; and [/ebay-clear] after it removes them, so that the credentials
    in force are those of the configuration file alone and no token is
    cached.  An empty app id or cert id is refused. *)
Theorem setup_then_clear_round_trip (cfg : Config) (oauth : OAuth)
    (appId devId certId user : string) (now0 now now' : Z) (st : ApiState) :
  (appId ≠ "" → certId ≠ "" →
   ∃ r, ebay_setup_modal cfg oauth appId devId certId user now0 now now' st
        = Some r ∧
        let entered := mkCredentials appId devId certId FromDatabase in
        getEbayCredentials cfg (st_credentials (tr_state r)) = Some entered ∧
        tr_request r = Some entered ∧
        tr_outcome r
        = match oauth appId certId with
          | Ok (access_token, _) => Ok access_token
          | Thrown err => Thrown err
          end ∧
        getEbayCredentials cfg (st_credentials (ebay_clear cfg (tr_state r)))
        = getEbayCredentials cfg None ∧
        st_token (ebay_clear cfg (tr_state r)) = None) ∧
  (appId = "" ∨ certId = "" →
   ebay_setup_modal cfg oauth appId devId certId user now0 now now' st = None).
Proof.
  split.
  - intros Ha%nonempty_true Hc%nonempty_true.
    unfold ebay_setup_modal. rewrite Ha, Hc. simpl.
    eexists. split; [reflexivity|].
    unfold getEbayAccessToken, getEbayCredentials. simpl.
    rewrite Ha, Hc. simpl.
    destruct (oauth appId certId) as [[tok expires]|err]; simpl;
      unfold ebay_clear, getEbayCredentials; simpl; rewrite Ha, Hc; simpl;
      by repeat split.
  - unfold ebay_setup_modal, nonempty. by intros [-> | ->]; rewrite ?orb_true_r.
Qed.

(** X19: a token obtained from the OAuth endpoint is served from the cache,
    without a new request and without a change of state, at every clock
    reading earlier than five minutes before its expiry; from then on a
    call makes a new request.  A call that throws leaves the state as it
    was. *)
Theorem token_cached_until_five_minutes_before_expiry (cfg : Config)
    (oauth : OAuth) (now now' : Z) (st : ApiState) :
  let r := getEbayAccessToken cfg oauth now now' st in
  (∀ creds token expires_in,
     tr_request r = Some creds →
     oauth (cr_appId creds) (cr_certId creds) = Ok (token, expires_in) →
     token ≠ "" →
     tr_outcome r = Ok token ∧
     st_expiry (tr_state r) = now' + expires_in * 1000 ∧
     (∀ oauth2 later later',
        later < now' + expires_in * 1000 - 300000 →
        getEbayAccessToken cfg oauth2 later later' (tr_state r)
        = mkTokenResult (Ok token) (tr_state r) None) ∧
     (∀ oauth2 later later',
        now' + expires_in * 1000 - 300000 <= later →
        tr_request (getEbayAccessToken cfg oauth2 later later' (tr_state r))
        = Some creds)) ∧
  (∀ err, tr_outcome r = Thrown err → tr_state r = st).
Proof.
  simpl. unfold getEbayAccessToken. split.
  - intros creds token expires_in.
    destruct (truthy_string (st_token st) && (now <? st_expiry st - 300000));
      [done|].
    destruct (getEbayCredentials cfg (st_credentials st)) as [c|] eqn:Hc;
      [|done].
    destruct (oauth (cr_appId c) (cr_certId c)) as [[tok ex]|err] eqn:Ho;
      simpl.
    + intros [= <-]. rewrite Ho. intros [= -> ->] Htok.
      unfold truthy_string. apply nonempty_true in Htok.
      unfold nonempty in Htok. rewrite Htok. simpl.
      split; [done|]. split; [done|]. split.
      * intros oauth2 later later' Hlt.
        by destruct (Z.ltb_spec later (now' + expires_in * 1000 - 300000));
          [|lia].
      * intros oauth2 later later' Hge.
        destruct (Z.ltb_spec later (now' + expires_in * 1000 - 300000));
          [lia|]. rewrite Hc. by destruct (oauth2 _ _) as [[??]|?].
    + intros [= <-]. by rewrite Ho.
  - intros err.
    destruct (truthy_string (st_token st) && (now <? st_expiry st - 300000));
      [done|].
    destruct (getEbayCredentials cfg (st_credentials st)) as [c|]; [|done].
    by destruct (oauth (cr_appId c) (cr_certId c)) as [[tok ex]|err'].
Qed.

(** ** Channel names *)

Lemma is_dash_spec (c : Ascii.ascii) : is_dash c = true ↔ c = dash.
Proof. unfold is_dash. apply Ascii.eqb_eq. Qed.

Lemma slug_char_not_dash (c : Ascii.ascii) : is_slug_char c = true → c ≠ dash.
Proof. intros Hc ->. by vm_compute in Hc. Qed.

Lemma dash_runs_shaped (in_run : bool) (s : list Ascii.ascii) :
  slug_shaped (dash_runs in_run s) ∧
  (in_run = true → head (dash_runs in_run s) ≠ Some dash).
Proof.
  revert in_run. induction s as [|c rest IH]; intros in_run; simpl.
  { split; [split; [constructor | done] | done]. }
  destruct (is_slug_char c) eqn:Hc.
  - destruct (IH false) as [[Hall Hndd] _]. split; [split|].
    + constructor; [|done]. unfold slug_or_dash. by rewrite Hc.
    + simpl. split; [|done]. intros ->. by vm_compute in Hc.
    + intros _. simpl. intros [= ->]. by vm_compute in Hc.
  - destruct (IH true) as [[Hall Hndd] Hhead]. destruct in_run.
    + split; [done|]. intros _. by apply Hhead.
    + split; [|done]. split.
      * constructor; [|done]. by vm_compute.
      * simpl. split; [|done]. intros _. by apply Hhead.
Qed.

Lemma drop_leading_dashes_shaped (s : list Ascii.ascii) :
  slug_shaped s →
  slug_shaped (drop_leading_dashes s) ∧
  head (drop_leading_dashes s) ≠ Some dash.
Proof.
  induction s as [|c rest IH]; intros [Hall Hndd]; simpl.
  { by split. }
  destruct (is_dash c) eqn:Hc.
  - apply IH. split; [by inversion Hall | by destruct Hndd].
  - split; [done|]. simpl. intros [= ->]. by vm_compute in Hc.
Qed.

Lemma drop_trailing_dashes_shaped (s : list Ascii.ascii) :
  slug_shaped s →
  slug_shaped (drop_trailing_dashes s) ∧
  head (drop_trailing_dashes s) = match drop_trailing_dashes s with
                                  | [] => None
                                  | _ => head s
                                  end ∧
  last (drop_trailing_dashes s) ≠ Some dash.
Proof.
  induction s as [|c rest IH]; intros [Hall Hndd]; simpl.
  { by repeat split. }
  inversion Hall as [|? ? Hc Hrest]; subst. destruct Hndd as [Hcd Hndd].
  destruct (IH (conj Hrest Hndd)) as ([Hall' Hndd'] & Hhead & Hlast).
  destruct (drop_trailing_dashes rest) as [|k kept] eqn:Hk.
  - destruct (is_dash c) eqn:Hd; simpl.
    + by repeat split.
    + repeat split; auto. intros [= ->]. by vm_compute in Hd.
  - split; [split|split].
    + by constructor.
    + simpl. split; [|done]. intros ->. simpl in Hhead.
      rewrite Hhead. by apply Hcd.
    + done.
    + by rewrite last_cons_cons.
Qed.

Lemma take_shaped (n : nat) (s : list Ascii.ascii) :
  slug_shaped s → slug_shaped (take n s).
Proof.
  intros [Hall Hndd]. split; [by apply Forall_take|].
  clear Hall. revert n. induction s as [|c rest IH]; intros [|n]; simpl; try done.
  destruct Hndd as [Hcd Hndd]. split; [|by apply IH].
  intros ->. destruct rest as [|d rest'], n as [|n]; simpl; try done.
  by apply Hcd.
Qed.

(** X20: whatever the input and the lower-casing, a slug holds only the
    characters a-z, 0-9 and the dash, is at most [maxLen] characters long,
    does not start with a dash and has no two dashes in a row; it does not
    end with a dash either unless it was cut at [maxLen]. *)
Theorem slugify_is_a_slug (toLowerCase : string → string) (str : string)
    (maxLen : nat) :
  let slug := String.list_ascii_of_string (slugify toLowerCase str maxLen) in
  Forall (λ c, slug_or_dash c = true) slug ∧
  (length slug <= maxLen)%nat ∧
  head slug ≠ Some dash ∧
  no_double_dash slug ∧
  (length slug < maxLen → last slug ≠ Some dash)%nat.
Proof.
  simpl. unfold slugify. rewrite String.list_ascii_of_string_of_list_ascii.
  unfold slugify_chars.
  set (chars := String.list_ascii_of_string (toLowerCase str)).
  destruct (dash_runs_shaped false chars) as [H1 _].
  destruct (drop_leading_dashes_shaped _ H1) as [H2 Hhead2].
  destruct (drop_trailing_dashes_shaped _ H2) as (H3 & Hhead3 & Hlast3).
  destruct (take_shaped maxLen _ H3) as [Hall Hndd].
  set (trimmed := drop_trailing_dashes _) in *.
  split; [done|]. split; [rewrite length_take; lia|].
  split; [|split; [done|]].
  - destruct trimmed as [|c t] eqn:Ht, maxLen as [|n]; simpl; try done.
    simpl in Hhead3. intros [= ->]. by rewrite <- Hhead3 in Hhead2.
  - rewrite length_take. intros Hlen.
    rewrite take_ge by lia. done.
Qed.

Lemma next_free_counter_finds (toLowerCase : string → string)
    (existingNames : gset string) (emoji slug : string) :
  (∀ i j, toLowerCase (numbered emoji slug i)
          = toLowerCase (numbered emoji slug j) → i = j) →
  ∀ (fuel : nat) (open : gset string) (counter : Z),
    (size open <= fuel)%nat →
    (∀ i, counter <= i →
          toLowerCase (numbered emoji slug i) ∈ existingNames →
          toLowerCase (numbered emoji slug i) ∈ open) →
    ∃ k, next_free_counter toLowerCase fuel existingNames emoji slug counter
         = Some k ∧
         counter <= k ∧
         (toLowerCase (numbered emoji slug k) ∉ existingNames) ∧
         ∀ i, counter <= i < k →
              toLowerCase (numbered emoji slug i) ∈ existingNames.
Proof.
  intros Hinj fuel. induction fuel as [|fuel IH]; intros open counter Hsize Hleft.
  - simpl. case_bool_decide as Hin.
    + apply Hleft in Hin; [|lia].
      assert (size open = 0%nat) as Hz by lia.
      apply size_empty_inv in Hz. set_solver.
    + exists counter. repeat split; [lia | done | lia].
  - simpl. case_bool_decide as Hin.
    + pose proof (Hleft counter ltac:(lia) Hin) as Hin'.
      destruct (IH (open ∖ {[toLowerCase (numbered emoji slug counter)]})
                  (counter + 1)) as (k & Hk & Hle & Hfree & Hbelow).
      * assert (size open
                = S (size (open ∖ {[toLowerCase (numbered emoji slug counter)]})))
          as Hs; [|lia].
        rewrite (size_difference open {[toLowerCase (numbered emoji slug counter)]})
          by set_solver.
        rewrite size_singleton.
        assert (size open ≠ 0%nat); [|lia].
        intros Hz. apply size_empty_inv in Hz. set_solver.
      * intros i Hi Hex. apply elem_of_difference. split; [apply Hleft; [lia|done]|].
        intros Heq%elem_of_singleton. apply Hinj in Heq. lia.
      * exists k. split; [done|]. split; [lia|]. split; [done|].
        intros i Hi. destruct (decide (i = counter)) as [->|]; [done|].
        apply Hbelow. lia.
    + exists counter. repeat split; [lia | done | lia].
Qed.

(** X21: when the numbered names of a slug differ from one another after
    lower-casing, a run of the loop of at most as many steps as the category
    has channel names ends, and the name returned is free: its lower-case
    form is not among the existing names.  It is the plain name when that is
    free, and otherwise the numbered name with the least counter from 2 on
    that is free. *)
Theorem createUniqueChannelName_is_fresh (toLowerCase : string → string)
    (fuel : nat) (existingNames : gset string) (emoji simplified : string) :
  let slug := slugify toLowerCase simplified 25 in
  (∀ i j, toLowerCase (numbered emoji slug i)
          = toLowerCase (numbered emoji slug j) → i = j) →
  (size existingNames <= fuel)%nat →
  ∃ name,
    createUniqueChannelName toLowerCase fuel existingNames emoji simplified
    = Some name ∧
    (toLowerCase name ∉ existingNames) ∧
    ((name = emoji +:+ slug) ∨
     (toLowerCase (emoji +:+ slug) ∈ existingNames ∧
      ∃ k, 2 <= k ∧ name = numbered emoji slug k ∧
           ∀ i, 2 <= i < k →
                toLowerCase (numbered emoji slug i) ∈ existingNames)).
Proof.
  simpl. intros Hinj Hfuel. unfold createUniqueChannelName.
  case_bool_decide as Hplain; simpl.
  - destruct (next_free_counter_finds toLowerCase existingNames emoji _ Hinj
                fuel existingNames 2 Hfuel ltac:(done))
      as (k & -> & Hle & Hfree & Hbelow).
    exists (numbered emoji (slugify toLowerCase simplified 25) k).
    split; [done|]. split; [done|]. right. split; [done|]. by exists k.
  - eexists. split; [done|]. split; [done|]. by left.
Qed.

(** ** Crash report files *)

Lemma append_cons (c : ascii) (a b : string) :
  String c a +:+ b = String c (a +:+ b).
Proof. done. Qed.

Lemma append_nil_r (a : string) : a +:+ "" = a.
Proof. induction a as [|c a IH]; [done|]. rewrite append_cons. by f_equal. Qed.

Lemma append_assoc (a b c : string) : (a +:+ b) +:+ c = a +:+ (b +:+ c).
Proof. induction a as [|x a IH]; [done|]. rewrite !append_cons. by f_equal. Qed.

Lemma strip_prefix_app (p r : string) : strip_prefix p (p +:+ r) = Some r.
Proof.
  induction p as [|c p IH]; [by destruct r|].
  rewrite append_cons. simpl. by rewrite Ascii.eqb_refl.
Qed.

Lemma strip_prefix_startsWith (p r : string) : startsWith p (p +:+ r) = true.
Proof. unfold startsWith. by rewrite strip_prefix_app. Qed.

Lemma endsWith_app (suffix a : string) : endsWith suffix (a +:+ suffix) = true.
Proof.
  induction a as [|c a IH].
  - change ("" +:+ suffix) with suffix.
    destruct suffix; simpl; by rewrite ?Ascii.eqb_refl, ?String.eqb_refl.
  - rewrite append_cons.
    change (endsWith suffix (String c (a +:+ suffix)))
      with (if String.eqb (String c (a +:+ suffix)) suffix then true
            else endsWith suffix (a +:+ suffix)).
    rewrite IH. by destruct (String.eqb _ _).
Qed.

Lemma parseInt_digits_app (a : Z) (s1 s2 : string) :
  parseInt_digits a (s1 +:+ s2) = parseInt_digits (parseInt_digits a s1) s2.
Proof.
  revert a. induction s1 as [|c s1 IH]; intros a; [done|].
  rewrite append_cons. simpl. apply IH.
Qed.

Lemma all_digits_app (s1 s2 : string) :
  all_digits (s1 +:+ s2) = all_digits s1 && all_digits s2.
Proof.
  induction s1 as [|c s1 IH]; [done|].
  rewrite append_cons. simpl. by rewrite IH, andb_assoc.
Qed.

Lemma span_digits_app (ds r : string) :
  all_digits ds = true →
  (match r with String c _ => is_digit_char c = false | EmptyString => True end) →
  span_digits (ds +:+ r) = (ds, r).
Proof.
  intros Hds Hr. induction ds as [|c ds IH].
  - change ("" +:+ r) with r. destruct r as [|c r]; [done|]. simpl. by rewrite Hr.
  - rewrite append_cons. simpl in *.
    apply andb_prop in Hds as [-> Hds]. by rewrite (IH Hds).
Qed.

Lemma parseInt_digits_nonneg (a : Z) (ds : string) :
  all_digits ds = true → 0 <= a → 0 <= parseInt_digits a ds.
Proof.
  revert a. induction ds as [|c ds IH]; intros a Hds Ha; simpl in *; [done|].
  apply andb_prop in Hds as [Hc Hds]. apply IH; [done|].
  unfold is_digit_char in Hc. apply andb_prop in Hc as [Hlo _].
  apply Nat.leb_le in Hlo. lia.
Qed.

Lemma pretty_N_char_value (d : N) :
  (d < 10)%N →
  is_digit_char (pretty_N_char d) = true ∧
  Z.of_nat (nat_of_ascii (pretty_N_char d)) - 48 = Z.of_N d.
Proof.
  intros Hd.
  assert (d = 0 ∨ d = 1 ∨ d = 2 ∨ d = 3 ∨ d = 4 ∨ d = 5 ∨ d = 6 ∨ d = 7
          ∨ d = 8 ∨ d = 9)%N as Hcases by lia.
  by repeat (destruct Hcases as [-> | Hcases]; [done|]); subst.
Qed.

Lemma pretty_N_go_digits (x : N) (s : string) :
  ∃ ds, pretty_N_go x s = ds +:+ s ∧ all_digits ds = true ∧
        parseInt_digits 0 ds = Z.of_N x ∧ ((0 < x)%N → ds ≠ "").
Proof.
  revert s. induction (N.lt_wf_0 x) as [x _ IH]; intros s.
  assert (x = 0 ∨ 0 < x)%N as [-> | Hpos] by lia.
  - exists "". rewrite pretty_N_go_0. repeat split; done || lia.
  - rewrite pretty_N_go_step by done.
    destruct (IH (x `div` 10)%N ltac:(by apply N.div_lt)
                (String (pretty_N_char (x `mod` 10)) s))
      as (ds & Hds & Hall & Hval & _).
    destruct (pretty_N_char_value (x `mod` 10)%N) as [Hdig Hv].
    { by apply N.mod_lt. }
    exists (ds +:+ String (pretty_N_char (x `mod` 10)) "").
    split; [by rewrite Hds, append_assoc|]. split; [|split].
    + rewrite all_digits_app, Hall. simpl. by rewrite Hdig.
    + rewrite parseInt_digits_app, Hval. simpl. rewrite Hv.
      rewrite (N.div_mod x 10) at 3 by done. lia.
    + intros _. by destruct ds.
Qed.

Lemma String_of_number_digits (n : Z) :
  0 <= n →
  all_digits (String_of_number n) = true ∧
  String_of_number n ≠ "" ∧
  parseInt_digits 0 (String_of_number n) = n.
Proof.
  intros Hn. unfold String_of_number, pretty, pretty_Z.
  destruct n as [|p|p]; [by vm_compute | | lia].
  unfold pretty, pretty_positive, pretty, pretty_N.
  case_decide; [done|].
  destruct (pretty_N_go_digits (N.pos p) "") as (ds & Hds & Hall & Hval & Hne).
  rewrite Hds, append_nil_r. split; [done|]. split; [apply Hne; lia|].
  rewrite Hval. lia.
Qed.

Lemma report_match_leftmost (f ds : string) :
  report_match_here f = Some ds → report_match f = Some ds.
Proof.
  intros Hhere. destruct f.
  - by vm_compute in Hhere.
  - simpl. by rewrite Hhere.
Qed.

Lemma report_match_digits (f ds : string) :
  report_match f = Some ds → all_digits ds = true.
Proof.
  induction f as [|c f IH]; simpl.
  - by destruct (report_match_here "") eqn:E; [vm_compute in E|].
  - destruct (report_match_here (String c f)) as [ds'|] eqn:E; [|done].
    intros [= <-]. unfold report_match_here in E.
    destruct (strip_prefix _ _) as [rest|]; [|done].
    assert (∀ s, all_digits (span_digits s).1 = true) as Hspan.
    { clear. induction s as [|x s IHs]; simpl; [done|].
      destruct (is_digit_char x) eqn:Hx; [|done].
      destruct (span_digits s). simpl in *. by rewrite Hx. }
    specialize (Hspan rest). destruct (span_digits rest) as [ds0 after_ds].
    by destruct (_ && _); [injection E as <- |].
Qed.

Lemma report_index_nonneg (f : string) : 0 <= report_index f.
Proof.
  unfold report_index. destruct (report_match f) as [ds|] eqn:E; [|done].
  apply parseInt_digits_nonneg; [|done]. by eapply report_match_digits.
Qed.

Lemma next_index_above (indices : list Z) :
  (∀ i, i ∈ indices → i < next_index indices) ∧
  (Forall (λ i, 0 <= i) indices → 1 <= next_index indices).
Proof.
  destruct indices as [|i0 rest]; simpl.
  { split; [by intros i Hi%elem_of_nil | done]. }
  assert (∀ acc, acc <= foldl Z.max acc rest ∧
                 ∀ i, i ∈ rest → i <= foldl Z.max acc rest) as Hmax.
  { induction rest as [|j rest IH]; intros acc; simpl.
    - split; [done | by intros i Hi%elem_of_nil].
    - destruct (IH (acc `max` j)) as [Hacc Hrest]. split; [lia|].
      intros i [-> | Hi]%elem_of_cons; [lia | by apply Hrest]. }
  destruct (Hmax i0) as [H0 Hrest]. split.
  - intros i [-> | Hi]%elem_of_cons; [lia|]. specialize (Hrest i Hi). lia.
  - intros Hall. inversion Hall; subst. lia.
Qed.

(** X22: the file a crash report is written to is never one of the files
    already in the crash report directory: the index chosen is at least 1
    and greater than the index of every existing report.  The indices in
    the directory are taken below [Number.MAX_SAFE_INTEGER], where the
    arithmetic of JavaScript is that of the integers. *)
Theorem crash_report_file_is_new (dir : list string) :
  Forall (λ f, report_index f < MAX_SAFE_INTEGER) dir →
  1 <= nextIndex dir ∧
  (∀ f, f ∈ dir → startsWith "crash_report_" f = true →
        endsWith ".txt" f = true → report_index f < nextIndex dir) ∧
  report_file (nextIndex dir) ∉ dir.
Proof.
  intros _. unfold nextIndex.
  set (existingFiles := List.filter _ dir).
  destruct (next_index_above (map report_index existingFiles)) as [Hlt Hpos].
  assert (1 <= next_index (map report_index existingFiles)) as H1.
  { apply Hpos, Forall_forall. intros i (f & -> & _)%list_elem_of_fmap.
    apply report_index_nonneg. }
  assert (∀ f, f ∈ dir → startsWith "crash_report_" f = true →
               endsWith ".txt" f = true →
               report_index f < next_index (map report_index existingFiles))
    as Hold.
  { intros f Hf Hs He. apply Hlt. apply list_elem_of_fmap. exists f.
    split; [done|]. apply list_elem_of_In, filter_In.
    split; [by apply list_elem_of_In | by rewrite Hs, He]. }
  split; [done|]. split; [done|].
  set (n := next_index _) in *. intros Hin.
  destruct (String_of_number_digits n ltac:(lia)) as (Hall & Hne & Hval).
  assert (report_index (report_file n) = n) as Hindex.
  { unfold report_index, report_file.
    assert (report_match ("crash_report_" +:+ String_of_number n +:+ ".txt")
            = Some (String_of_number n)) as ->; [|done].
    assert (report_match_here
              ("crash_report_" +:+ String_of_number n +:+ ".txt")
            = Some (String_of_number n)) as Hhere.
    { unfold report_match_here. rewrite strip_prefix_app.
      rewrite span_digits_app by done.
      apply nonempty_true in Hne. unfold nonempty in Hne. by rewrite Hne. }
    by apply report_match_leftmost. }
  specialize (Hold (report_file n) Hin).
  rewrite Hindex in Hold. unfold report_file in Hold.
  rewrite strip_prefix_startsWith, <- append_assoc, endsWith_app in Hold.
  specialize (Hold eq_refl eq_refl). lia.
Qed.

(** ** The placement of a tracking channel *)

Section PlacementProperties.
Variable ebayArchivedCategoryId : string.
Variable ebayBuyItNowCategoryId : string.
Variable ebayAuctionsCategoryId : string.
Variable setParent : string → Outcome unit.
Variable setName : JsString → Outcome unit.

Lemma open_listing_placement (listing : Listing) :
  status listing ≠ "shipped" → status listing ≠ "ended" →
  status listing ≠ "sold" →
  correct_placement ebayArchivedCategoryId ebayBuyItNowCategoryId
    ebayAuctionsCategoryId listing
  = creation_placement ebayBuyItNowCategoryId ebayAuctionsCategoryId
      (listingType listing).
Proof.
  intros H1 H2 H3. unfold correct_placement, creation_placement.
  apply String.eqb_neq in H1, H2, H3. by rewrite H1, H2, H3.
Qed.

Lemma one_unit_is_no_pair (s : JsString) :
  take 1 s ≠ money_bag ∧ take 1 s ≠ hammer.
Proof. by destruct s as [|? [|? ?]]. Qed.

(** The rename request of the organizer: none when the move that comes
    first throws, and otherwise one exactly when the first code unit of the
    name is not the emoji. *)
Lemma organize_rename_request (listing : Listing) (channel : Channel)
    (cat : string) (emoji : JsString) :
  correct_placement ebayArchivedCategoryId ebayBuyItNowCategoryId
    ebayAuctionsCategoryId listing = (cat, emoji) →
  rq_setName
    (organize_channel ebayArchivedCategoryId ebayBuyItNowCategoryId
       ebayAuctionsCategoryId setParent setName listing channel)
  = if bool_decide (ch_parentId channel = Some cat) || is_Ok (setParent cat)
    then if bool_decide (charAt0 (ch_name channel) = emoji) then None
         else Some (emoji ++ slice1 (ch_name channel))
    else None.
Proof.
  intros Hplace. unfold organize_channel. rewrite Hplace.
  case_bool_decide; simpl.
  - case_bool_decide; simpl; [done|]. by destruct (setName _).
  - destruct (setParent cat); simpl; [|done].
    case_bool_decide; simpl; [done|]. by destruct (setName _).
Qed.

Lemma organize_failed_move (listing : Listing) (channel : Channel)
    (cat : string) (emoji : JsString) :
  correct_placement ebayArchivedCategoryId ebayBuyItNowCategoryId
    ebayAuctionsCategoryId listing = (cat, emoji) →
  ∀ err, ch_parentId channel ≠ Some cat → setParent cat = Thrown err →
    organize_channel ebayArchivedCategoryId ebayBuyItNowCategoryId
      ebayAuctionsCategoryId setParent setName listing channel
    = mkOrganized (Some cat) None false false (Some err).
Proof.
  intros Hplace err Hparent Herr. unfold organize_channel. rewrite Hplace.
  by rewrite bool_decide_eq_false_2, Herr.
Qed.

(** X23: the organizer agrees with the creation of a channel about where a
    listing belongs: for a listing that is not shipped, ended or sold, a
    channel still in the category it was created in is not moved, and a
    channel anywhere else is moved to that category, whatever the gateway
    answers. *)
Theorem organize_keeps_open_listing_in_place
    (listing : Listing) (channel : Channel) :
  status listing ≠ "shipped" → status listing ≠ "ended" →
  status listing ≠ "sold" →
  let created :=
    creation_placement ebayBuyItNowCategoryId ebayAuctionsCategoryId
      (listingType listing) in
  rq_setParent
    (organize_channel ebayArchivedCategoryId ebayBuyItNowCategoryId
       ebayAuctionsCategoryId setParent setName listing channel)
  = if bool_decide (ch_parentId channel = Some created.1) then None
    else Some created.1.
Proof.
  intros H1 H2 H3 created. subst created. unfold organize_channel.
  rewrite (open_listing_placement listing H1 H2 H3).
  destruct (creation_placement _ _ _) as [cat emoji].
  simpl. case_bool_decide; simpl.
  - by destruct (if negb _ then _ else _).
  - destruct (setParent cat); [|done].
    by destruct (if negb _ then _ else _).
Qed.

(** X24: [charAt(0)] is one UTF-16 code unit, and the money bag and the
    hammer are two.  So for a listing that is not shipped, ended or sold the
    organizer asks for a rename whatever the channel is called, unless the
    move it makes first throws: then the iteration ends in the [catch], no
    rename is asked for and the error is counted.  For a name that already
    starts with the right emoji the name asked for repeats the second code
    unit of the emoji and is one unit longer.  With the one-unit check mark
    of a shipped listing, a name that starts with it is left alone. *)
Theorem organize_renames_open_listing
    (listing : Listing) (channel : Channel) :
  let done_ :=
    organize_channel ebayArchivedCategoryId ebayBuyItNowCategoryId
      ebayAuctionsCategoryId setParent setName listing channel in
  (status listing ≠ "shipped" → status listing ≠ "ended" →
   status listing ≠ "sold" →
   let created :=
     creation_placement ebayBuyItNowCategoryId ebayAuctionsCategoryId
       (listingType listing) in
   (ch_parentId channel = Some created.1 ∨ setParent created.1 = Ok tt →
    rq_setName done_ = Some (created.2 ++ slice1 (ch_name channel)) ∧
    ∀ rest, ch_name channel = created.2 ++ rest →
      rq_setName done_ = Some (created.2 ++ drop 1 created.2 ++ rest) ∧
      length (created.2 ++ drop 1 created.2 ++ rest)
      = S (length (ch_name channel))) ∧
   (∀ err, ch_parentId channel ≠ Some created.1 →
      setParent created.1 = Thrown err →
      rq_setParent done_ = Some created.1 ∧ rq_setName done_ = None ∧
      org_moved done_ = false ∧ org_emojiUpdated done_ = false ∧
      org_error done_ = Some err)) ∧
  (status listing = "shipped" →
   ∀ rest, ch_name channel = check_mark ++ rest → rq_setName done_ = None).
Proof.
  intros done_. subst done_. split.
  - intros H1 H2 H3 created. subst created.
    pose proof (open_listing_placement listing H1 H2 H3) as Hplace.
    destruct (creation_placement _ _ (listingType listing))
      as [cat emoji] eqn:Hcreated.
    rewrite (organize_rename_request listing channel cat emoji Hplace).
    pose proof (organize_failed_move listing channel cat emoji Hplace)
      as Hfail.
    assert (emoji = money_bag ∨ emoji = hammer) as Hpair.
    { unfold creation_placement in Hcreated.
      destruct (String.eqb _ _); injection Hcreated as <- <-; by auto. }
    assert (charAt0 (ch_name channel) ≠ emoji) as Hunit.
    { destruct (one_unit_is_no_pair (ch_name channel)).
      by destruct Hpair as [-> | ->]. }
    simpl. split.
    + intros Hmove.
      assert (bool_decide (ch_parentId channel = Some cat)
              || is_Ok (setParent cat) = true) as ->.
      { destruct Hmove as [-> | ->]; [|by rewrite orb_true_r].
        by rewrite bool_decide_eq_true_2. }
      rewrite bool_decide_eq_false_2 by done.
      split; [done|]. intros rest Hname. rewrite Hname. unfold slice1.
      by destruct Hpair as [-> | ->].
    + intros err Hparent Herr.
      by rewrite (Hfail err Hparent Herr), bool_decide_eq_false_2, Herr.
  - intros Hs rest Hname. unfold organize_channel, correct_placement.
    rewrite Hs, Hname. simpl.
    by destruct (if negb _ then _ else _).
Qed.

End PlacementProperties.

(** ASCII lower-casing keeps the numbered names of a slug apart. *)
Lemma lower_ascii_letters_app (a b : string) :
  lower_ascii_letters (a +:+ b)
  = lower_ascii_letters a +:+ lower_ascii_letters b.
Proof.
  induction a as [|c a IH]; [done|].
  rewrite append_cons. simpl. by rewrite IH.
Qed.

Lemma lower_ascii_letters_digits (s : string) :
  all_digits s = true → lower_ascii_letters s = s.
Proof.
  induction s as [|c s IH]; simpl; [done|].
  intros [Hc Hs]%andb_prop. rewrite (IH Hs). f_equal.
  unfold ascii_lower, is_digit_char in *.
  apply andb_prop in Hc as [_ Hhi%Nat.leb_le].
  destruct (65 <=? nat_of_ascii c)%nat eqn:Hlo; [|done].
  apply Nat.leb_le in Hlo. lia.
Qed.

Lemma lower_ascii_letters_number (n : Z) :
  lower_ascii_letters (String_of_number n) = String_of_number n.
Proof.
  destruct (Z.le_gt_cases 0 n) as [Hn | Hn].
  - apply lower_ascii_letters_digits. by apply String_of_number_digits.
  - destruct n as [|p|p]; [lia | lia |].
    change (String_of_number (Z.neg p))
      with ("-" +:+ String_of_number (Z.pos p)).
    rewrite lower_ascii_letters_app. f_equal.
    apply lower_ascii_letters_digits. by apply String_of_number_digits.
Qed.

Lemma numbered_lower_inj (emoji slug : string) (i j : Z) :
  lower_ascii_letters (numbered emoji slug i)
  = lower_ascii_letters (numbered emoji slug j) → i = j.
Proof.
  unfold numbered.
  rewrite !lower_ascii_letters_app, !lower_ascii_letters_number.
  intros Heq. do 3 apply (inj (String.app _)) in Heq.
  by apply (inj pretty) in Heq.
Qed.

(** ** Concrete runs *)

(** One tick with a new bid on the lamp keeps who owns the record and what
    it tracks. *)
Lemma ticks_keep_identity_witness :
  ∃ l', record_of (run_tick bidding_script (world0 {[ "chanB" := lamp ]}))
          "chanB" = Some l' ∧
        url l' = url lamp ∧ ownerId l' = ownerId lamp ∧
        createdAt l' = createdAt lamp ∧ listingType l' = listingType lamp ∧
        buyItNowPrice l' = buyItNowPrice lamp.
Proof.
  exact (@ticks_keep_identity Z (scripted bidding_script)
           (world0 {[ "chanB" := lamp ]}) _ "chanB"
           (ticked_step _ _ T0 (ticked_refl _))).
Defined.


(** Ninety minutes before the deadline the field starts with a count. *)
Lemma formatTimeLeft_agrees_with_policy_witness :
  starts_with_digit (formatTimeLeft T0 (Some (T0 + 90 * MINUTE))).
Proof.
  apply (proj2 (proj2 (formatTimeLeft_agrees_with_policy T0
                         (Some (T0 + 90 * MINUTE))))).
  - reflexivity.
  - by vm_compute.
Defined.

(** The lamp's row has the Close Tracking button, and the lamp is polled. *)
Lemma buttons_follow_lifecycle_witness :
  skipped_status (status lamp) = false.
Proof.
  apply (proj1 (proj2 (proj2 (proj2 (proj2 (proj2
           (buttons_follow_lifecycle lamp))))))).
  vm_compute. repeat constructor.
Defined.

(** With rules that refuse an empty title, the ended watch without a title
    gets no embed, although the tagged title would not be empty. *)
Lemma embed_is_well_formed_witness :
  @buildEbayListingEmbed example_rules (λ _, "14/11/2023, 22:11:20") T0
    untitled_watch
  = Thrown "Invalid string length".
Proof.
  apply (proj1 (@embed_is_well_formed example_rules
                  (λ _, "14/11/2023, 22:11:20") T0 untitled_watch)).
  reflexivity.
Defined.


(** Somebody else presses Close Tracking on the lamp. *)
Lemma refused_press_changes_nothing_witness :
  file (run_press quiet_script CloseTracking stranger_press
          (world0 {[ "chanB" := lamp ]}))
  = Some {[ "chanB" := lamp ]}.
Proof.
  refine (proj1 (proj2 (@refused_press_changes_nothing Z
    (scripted_interaction quiet_script)
    "archived-category" slice90_ascii CloseTracking stranger_press
    (world0 {[ "chanB" := lamp ]})) lamp _ _ _)).
  - reflexivity.
  - by vm_compute.
  - reflexivity.
Defined.

(** Somebody else refreshes the lamp after a new bid. *)
Lemma manual_refresh_stores_the_merge_witness :
  record_of (run_refresh bidding_script stranger_press
               (world0 {[ "chanB" := lamp ]})) "chanB"
  = Some (merge lamp (build_snapshot "scrape" lamp_page_bid) (T0 + 300)).
Proof.
  refine (proj1 (@manual_refresh_stores_the_merge Z (scripted bidding_script)
    (scripted_interaction bidding_script) stranger_press
    (world0 {[ "chanB" := lamp ]}) lamp (T0 + 150) _ _)).
  - reflexivity.
  - reflexivity.
Defined.

(** The upload adds one image to the sofa's ticket. *)
Lemma collected_images_form_a_set_witness :
  ∃ t, Some sofa = Some t ∧
    NoDup (t_images sofa_with_upload) ∧
    (∀ u, u ∈ t_images sofa_with_upload ↔
          u ∈ t_images t ∨
          ∃ a, a ∈ upload ∧ isImageAttachment a = true ∧ att_url a = u) ∧
    (NoDup (t_images t) → t_images t `prefix_of` t_images sofa_with_upload) ∧
    t_ownerId sofa_with_upload = t_ownerId t ∧
    t_itemName sofa_with_upload = t_itemName t ∧
    t_itemDesc sofa_with_upload = t_itemDesc t ∧
    t_status sofa_with_upload = t_status t ∧
    t_createdAt sofa_with_upload = t_createdAt t.
Proof.
  apply (collected_images_form_a_set (Some sofa) upload sofa_with_upload).
  by vm_compute.
Defined.

Lemma collect_images_idempotent_witness :
  collect_images false (Some sofa_with_upload) upload = Some sofa_with_upload.
Proof.
  apply (collect_images_idempotent (Some sofa) upload sofa_with_upload).
  by vm_compute.
Defined.

(** A message of a bot in the sofa's channel. *)
Lemma MessageCreate_touches_one_open_ticket_witness :
  MessageCreate {[ "ticket-1" := sofa ]} "ticket-1" true upload
  = {[ "ticket-1" := sofa ]}.
Proof.
  apply (proj1 (MessageCreate_touches_one_open_ticket
                  {[ "ticket-1" := sofa ]} "ticket-1" true upload)).
  left. reflexivity.
Defined.

(** Setting up with the keys the endpoint accepts. *)
Lemma setup_then_clear_round_trip_witness :
  ∃ r, ebay_setup_modal no_config one_client "app-1" "dev-1" "cert-1" "admin"
         T0 (T0 + 1) (T0 + 200) fresh_state = Some r ∧
       let entered := mkCredentials "app-1" "dev-1" "cert-1" FromDatabase in
       getEbayCredentials no_config (st_credentials (tr_state r))
       = Some entered ∧
       tr_request r = Some entered ∧
       tr_outcome r
       = match one_client "app-1" "cert-1" with
         | Ok (access_token, _) => Ok access_token
         | Thrown err => Thrown err
         end ∧
       getEbayCredentials no_config
         (st_credentials (ebay_clear no_config (tr_state r)))
       = getEbayCredentials no_config None ∧
       st_token (ebay_clear no_config (tr_state r)) = None.
Proof.
  apply (proj1 (setup_then_clear_round_trip no_config one_client
                  "app-1" "dev-1" "cert-1" "admin" T0 (T0 + 1) (T0 + 200)
                  fresh_state)); by vm_compute.
Defined.

(** The first request with stored keys, answered at [T0 + 200]. *)
Lemma token_cached_until_five_minutes_before_expiry_witness :
  tr_outcome (getEbayAccessToken no_config one_client T0 (T0 + 200)
                stored_state) = Ok "token-1" ∧
  st_expiry (tr_state (getEbayAccessToken no_config one_client T0 (T0 + 200)
                         stored_state)) = T0 + 200 + 7200 * 1000.
Proof.
  destruct (proj1 (token_cached_until_five_minutes_before_expiry no_config
                     one_client T0 (T0 + 200) stored_state)
              (mkCredentials "app-1" "dev-1" "cert-1" FromDatabase)
              "token-1" 7200)
    as (Houtcome & Hexpiry & _).
  - reflexivity.
  - reflexivity.
  - by vm_compute.
  - split; [exact Houtcome | exact Hexpiry].
Defined.

(** A slug shorter than the limit does not end with a dash. *)
Lemma slugify_is_a_slug_witness :
  last (String.list_ascii_of_string
          (slugify lower_ascii_letters "Desk Lamp (brass)" 25))
  ≠ Some dash.
Proof.
  apply (proj2 (proj2 (proj2 (proj2
           (slugify_is_a_slug lower_ascii_letters "Desk Lamp (brass)" 25))))).
  vm_compute. lia.
Defined.

(** The third desk lamp of the category. *)
Lemma createUniqueChannelName_is_fresh_witness :
  ∃ name,
    createUniqueChannelName lower_ascii_letters 2 two_lamps "🔨" "Desk Lamp"
    = Some name ∧
    (lower_ascii_letters name ∉ two_lamps) ∧
    ((name = "🔨" +:+ slugify lower_ascii_letters "Desk Lamp" 25) ∨
     (lower_ascii_letters ("🔨" +:+ slugify lower_ascii_letters "Desk Lamp" 25)
        ∈ two_lamps ∧
      ∃ k, 2 <= k ∧
           name = numbered "🔨" (slugify lower_ascii_letters "Desk Lamp" 25) k ∧
           ∀ i, 2 <= i < k →
                lower_ascii_letters
                  (numbered "🔨" (slugify lower_ascii_letters "Desk Lamp" 25) i)
                ∈ two_lamps)).
Proof.
  apply (createUniqueChannelName_is_fresh lower_ascii_letters 2 two_lamps
           "🔨" "Desk Lamp").
  - intros i j. apply numbered_lower_inj.
  - by vm_compute.
Defined.

(** The next report after reports 1 and 12. *)
Lemma crash_report_file_is_new_witness :
  report_index "crash_report_12.txt" < nextIndex crash_dir.
Proof.
  refine (proj1 (proj2 (crash_report_file_is_new crash_dir _))
            "crash_report_12.txt" _ _ _).
  - unfold crash_dir. repeat (constructor; [by vm_compute|]). constructor.
  - repeat constructor.
  - reflexivity.
  - reflexivity.
Defined.

(** The lamp's channel stays in the auctions category. *)
Lemma organize_keeps_open_listing_in_place_witness :
  rq_setParent (organize_channel "archived-category" "buy-it-now-category"
                  "auctions-category" (λ _, Ok tt) (λ _, Ok tt)
                  lamp lamp_channel) = None.
Proof.
  apply (organize_keeps_open_listing_in_place "archived-category"
           "buy-it-now-category" "auctions-category" (λ _, Ok tt) (λ _, Ok tt)
           lamp lamp_channel);
    by vm_compute.
Defined.

(** The lamp's channel, named with the hammer, is renamed all the same. *)
Lemma organize_renames_open_listing_witness :
  rq_setName (organize_channel "archived-category" "buy-it-now-category"
                "auctions-category" (λ _, Ok tt) (λ _, Ok tt)
                lamp lamp_channel)
  = Some (hammer ++ [0xDD28; 0x2D; 0x6C; 0x61; 0x6D; 0x70]%N).
Proof.
  refine (proj1 (proj2 (proj1 (proj1 (organize_renames_open_listing
           "archived-category" "buy-it-now-category" "auctions-category"
           (λ _, Ok tt) (λ _, Ok tt) lamp lamp_channel) _ _ _) _)
           [0x2D; 0x6C; 0x61; 0x6D; 0x70]%N _)).
  - by vm_compute.
  - by vm_compute.
  - by vm_compute.
  - by right.
  - reflexivity.
Defined.
